(** * snoocore: the request orchestrator and the listing cursor

    A shallow embedding of [src/RedditRequest.js]: the error handler that
    classifies a failed response and prepares the retry, the success handler,
    and the listing slices with their navigation closures.

    JavaScript objects that the code shares and mutates (endpoints, argument
    mappings, slices) live in a store and are named by locations; the running
    [count] of a listing is threaded as explicit state. *)

From stdpp Require Import base option gmap strings list pretty.

Set Warnings "-register-all".
Local Open Scope Z_scope.

(** ** JavaScript values *)

(** Values that travel through the code: what [JSON.parse] produces, what a
    caller puts in an argument mapping. Numbers are the integers (a number with a
    fractional part is not represented); [VNaN] stands for the one number
    the code can observe as falsy besides zero. *)
Inductive Value :=
  | VUndefined
  | VNull
  | VBool (b : bool)
  | VNum (n : Z)
  | VNaN
  | VStr (s : string)
  | VArr (items : list Value)
  | VObj (fields : gmap string Value).

Global Instance Value_inhabited : Inhabited Value := populate VUndefined.

(** ToBoolean, as used by [||], [!] and [if]. *)
Definition truthy (v : Value) : bool :=
  match v with
  | VUndefined | VNull | VNaN => false
  | VBool b => b
  | VNum n => negb (n =? 0)
  | VStr s => negb (String.eqb s "")
  | VArr _ | VObj _ => true
  end.

(** [a || b] *)
Definition js_or (a b : Value) : Value := if truthy a then a else b.

(** [Number.MAX_SAFE_INTEGER] and [Number.isSafeInteger] on an integer: the
    range in which a double holds every integer exactly. *)
Definition MAX_SAFE_INTEGER : Z := 2 ^ 53 - 1.

Definition safe_integer (n : Z) : bool :=
  (- MAX_SAFE_INTEGER <=? n) && (n <=? MAX_SAFE_INTEGER).

(** [m.k] on a mapping held in the store: a missing key reads [undefined]. *)
Definition prop (m : gmap string Value) (k : string) : Value :=
  default VUndefined (m !! k).

(** [v.k] on a value. [None] is the TypeError raised when [v] is [undefined]
    or [null]. The keys read by the code ([data], [before], [after],
    [children], [stickied], [name]) are no built-in property of strings,
    numbers, booleans or arrays, so those read [undefined]. *)
Definition get_prop (v : Value) (k : string) : option Value :=
  match v with
  | VUndefined | VNull => None
  | VObj fields => Some (prop fields k)
  | _ => Some VUndefined
  end.

(** [hay.indexOf(needle)]: position of the first occurrence, or [-1]. *)
Fixpoint indexOf_from (i : Z) (hay needle : string) : Z :=
  if String.prefix needle hay then i
  else match hay with
       | EmptyString => -1
       | String _ rest => indexOf_from (i + 1) rest needle
       end.

Definition indexOf (hay needle : string) : Z := indexOf_from 0 hay needle.

(** [String(n)] for an integer, and [s.substring(0, 1)]. *)
Definition Number_toString (n : Z) : string := pretty n.

Definition first_char (s : string) : string := String.substring 0 1 s.

(** ** Data model *)

Definition loc := positive.

Record ContextOptions := {
  bypassAuth : bool;
  decodeHtmlEntities : bool;
  listingIndex : option Z
}.

(** Modelled from the spec: the Endpoint class ([./Endpoint] is imported by
    the source but is not among the files). An endpoint is the value object
    of the data model: host, verb, path, headers, the argument mapping it was
    built with, contextual options and port. The argument mapping is a shared
    object, so the endpoint holds its location; the source reads it under the
    names [givenArgs] and [args]. *)
Record Endpoint := {
  hostname : string;
  method : string;
  path : string;
  headers : gmap string string;
  givenArgs : loc;
  contextOptions : ContextOptions;
  port : Z
}.

Definition args (e : Endpoint) : loc := givenArgs e.

Definition setHeaders (h : gmap string string) (e : Endpoint) : Endpoint :=
  {| hostname := hostname e; method := method e; path := path e;
     headers := h; givenArgs := givenArgs e;
     contextOptions := contextOptions e; port := port e |}.

Global Instance Endpoint_inhabited : Inhabited Endpoint :=
  populate {| hostname := ""; method := ""; path := ""; headers := ∅;
              givenArgs := 1%positive;
              contextOptions := {| bypassAuth := false;
                                   decodeHtmlEntities := false;
                                   listingIndex := None |};
              port := 0 |}.

(** What the transport hands back. *)
Record Response := {
  _status : Z;
  _headers : gmap string string;
  _body : option string
}.

Record UserConfig := {
  isNode : bool;
  userAgent : string;
  isOAuthType : string → bool;
  serverOAuth : string;
  serverOAuthPort : Z
}.

(** Errors a call can end with. [ResponseError] is the class of that name
    (message, response, endpoint); [TypeError] is raised by the runtime on
    a property read of [undefined] or [null]; [PlainError] is [new Error(msg)];
    [ReauthError] is the reason a reauthentication promise was rejected with. *)
Inductive Error :=
  | ResponseError (message : string) (response : Response) (endpoint : loc)
  | TypeError
  | PlainError (message : string)
  | ReauthError (reason : string).

(** Code that may throw computes in [Error + _]. *)
Global Instance Error_bind : MBind (sum Error) := λ X Y f m,
  match m with
  | inl e => inl e
  | inr x => f x
  end.

Global Instance Error_fmap : FMap (sum Error) := λ X Y f m,
  match m with
  | inl e => inl e
  | inr x => inr (f x)
  end.

(** How a call ends: it returns a promise that is fulfilled or rejected, or
    it throws before returning one. *)
Inductive Completion (X : Type) :=
  | Fulfilled (x : X)
  | Rejected (e : Error)
  | Thrown (e : Error).
Arguments Fulfilled {X} x.
Arguments Rejected {X} e.
Arguments Thrown {X} e.

(** The four messages of [responseErrorHandler]. *)
Definition InsufficientScope : string :=
  "Insufficient scopes provided for this call".
Definition NotFound : string :=
  "Page nod found. Is this a valid endpoint?".
Definition dquote : string := String (Ascii.ascii_of_nat 34) EmptyString.
Definition TokenExpiredUnrecoverable : string :=
  "Access token has expired. Listen for " ++
  "the " ++ dquote ++ "access_token_expired" ++ dquote ++ " event to " ++
  "handle this gracefully in your app.".
Definition Unrecoverable : string :=
  "This call failed. " ++
  "Does this call require a user? " ++
  "Is the user missing reddit gold? " ++
  "Trying to change a subreddit that the user does not moderate? " ++
  "This is an unrecoverable error. Check the rest of the " ++
  "error message for more information.".

(** ** Auth providers *)

(** The outcome of a provider action: its promise is fulfilled or rejected;
    either way the provider is left in a new internal state. *)
Inductive Settled (St : Type) :=
  | Granted (s : St)
  | Refused (s : St) (reason : string).
Arguments Granted {St} s.
Arguments Refused {St} s reason.

(** Modelled from the spec: the auth provider contract (both variants are
    injected; their class is not among the files). Token-state queries are
    pure; [refresh], [auth] and [applicationOnlyAuth] return a promise. *)
Record OAuth (St : Type) := {
  hasAccessToken : St → bool;
  canRefreshAccessToken : St → bool;
  hasRefreshToken : St → bool;
  getAuthorizationHeader : St → string;
  refresh : St → Settled St;
  auth : St → Settled St;
  applicationOnlyAuth : St → Settled St
}.
Arguments hasAccessToken {St} _ _.
Arguments canRefreshAccessToken {St} _ _.
Arguments hasRefreshToken {St} _ _.
Arguments getAuthorizationHeader {St} _ _.
Arguments refresh {St} _ _.
Arguments auth {St} _ _.
Arguments applicationOnlyAuth {St} _ _.

(** What the orchestrator does to its collaborators, in order. *)
Inductive Event :=
  | CallRefresh
  | CallAuth
  | CallApplicationOnlyAuth
  | Emit (name : string).

(** ** Listing slices *)

Module slice.
Record t := {
  get : Value;
  count : Value;
  before : Value;
  after : Value;
  allChildren : list Value;
  empty : bool;
  children : list Value;
  stickied : list Value;
  endpoint : loc  (* the [endpoint] its closures captured *)
}.
End slice.

Global Instance slice_inhabited : Inhabited slice.t :=
  populate {| slice.get := VUndefined; slice.count := VUndefined;
              slice.before := VNull; slice.after := VNull;
              slice.allChildren := []; slice.empty := true;
              slice.children := []; slice.stickied := [];
              slice.endpoint := 1%positive |}.

(** ** The store *)

(** Provider states, the objects the code shares by reference, and the log
    of what the orchestrator did to its collaborators. *)
Record World (U A : Type) := {
  oauth_state : U;
  appOnly_state : A;
  endpoints : gmap loc Endpoint;
  objects : gmap loc (gmap string Value);
  slices : gmap loc slice.t;
  events : list Event
}.
Arguments oauth_state {U A} _.
Arguments appOnly_state {U A} _.
Arguments endpoints {U A} _.
Arguments objects {U A} _.
Arguments slices {U A} _.
Arguments events {U A} _.

Section Store.
Context {U A : Type}.
Implicit Type w : World U A.

Definition set_oauth_state (s : U) w : World U A :=
  {| oauth_state := s; appOnly_state := appOnly_state w;
     endpoints := endpoints w; objects := objects w; slices := slices w;
     events := events w |}.

Definition set_appOnly_state (s : A) w : World U A :=
  {| oauth_state := oauth_state w; appOnly_state := s;
     endpoints := endpoints w; objects := objects w; slices := slices w;
     events := events w |}.

Definition set_endpoints (m : gmap loc Endpoint) w : World U A :=
  {| oauth_state := oauth_state w; appOnly_state := appOnly_state w;
     endpoints := m; objects := objects w; slices := slices w;
     events := events w |}.

Definition set_objects (m : gmap loc (gmap string Value)) w : World U A :=
  {| oauth_state := oauth_state w; appOnly_state := appOnly_state w;
     endpoints := endpoints w; objects := m; slices := slices w;
     events := events w |}.

Definition set_slices (m : gmap loc slice.t) w : World U A :=
  {| oauth_state := oauth_state w; appOnly_state := appOnly_state w;
     endpoints := endpoints w; objects := objects w; slices := m;
     events := events w |}.

Definition log (e : Event) w : World U A :=
  {| oauth_state := oauth_state w; appOnly_state := appOnly_state w;
     endpoints := endpoints w; objects := objects w; slices := slices w;
     events := events w ++ [e] |}.

(** [o.k = v] on the mapping at [o]. *)
Definition set_prop (o : loc) (k : string) (v : Value) w : World U A :=
  set_objects (<[o := <[k := v]> (objects w !!! o)]> (objects w)) w.

(** [new Endpoint(userConfig, hostname, method, path, headers, givenArgs,
    contextOptions, port)]: a new object in the store. *)
Definition new_Endpoint (cfg : UserConfig) (hostname method path : string)
    (headers : gmap string string) (givenArgs : loc)
    (contextOptions : ContextOptions) (port : Z) w : loc * World U A :=
  let l := fresh (dom (endpoints w)) in
  (l, set_endpoints
        (<[l := {| hostname := hostname; method := method; path := path;
                   headers := headers; givenArgs := givenArgs;
                   contextOptions := contextOptions; port := port |}]>
           (endpoints w)) w).

(** The argument mapping an endpoint carries, as it stands in the store. *)
Definition args_of (endpoint : loc) w : gmap string Value :=
  objects w !!! args (endpoints w !!! endpoint).
End Store.

(** ** The orchestrator *)

Section RedditRequest.
Context {U A : Type}.

(** The collaborators injected into the constructor, and the library
    functions the code calls: [JSON.parse] ([None] when it throws),
    [he.decode], and what [+] and [-] give where this development does not
    compute them: on an operand that is not a number, and on numbers that
    leave the safe integers, where the language rounds to a double. *)
Variable userConfig : UserConfig.
Variable oauth : OAuth U.
Variable oauthAppOnly : OAuth A.
Variable JSON_parse : string → option Value.
Variable he_decode : string → string.
Variable coerce_add coerce_sub : Value → Value → Value.

Implicit Type w : World U A.

Definition isApplicationOnly w : bool :=
  negb (hasAccessToken oauth (oauth_state w))
  && negb (canRefreshAccessToken oauth (oauth_state w)).

Definition no_options : ContextOptions :=
  {| bypassAuth := false; decodeHtmlEntities := false; listingIndex := None |}.

(** [contextOptions] defaults to the empty object when not given. *)
Definition buildHeaders (contextOptions : option ContextOptions) w
    : gmap string string :=
  let contextOptions := default no_options contextOptions in
  let headers : gmap string string := ∅ in
  let headers :=
    if isNode userConfig
    then <["User-Agent" := userAgent userConfig]> headers
    else headers in
  if bypassAuth contextOptions || isApplicationOnly w
  then <["Authorization" :=
           getAuthorizationHeader oauthAppOnly (appOnly_state w)]> headers
  else <["Authorization" :=
           getAuthorizationHeader oauth (oauth_state w)]> headers.

(** The [new Endpoint(...)] that both recovery paths build from the failing
    endpoint: same host, verb, path, arguments, options and port, headers
    from [buildHeaders]. *)
Definition modifiedEndpoint (endpoint : loc) w : loc * World U A :=
  let e := endpoints w !!! endpoint in
  new_Endpoint userConfig (hostname e) (method e) (path e)
    (buildHeaders (Some (contextOptions e)) w)
    (givenArgs e) (contextOptions e) (port e) w.

(** The callback given to [reauthPromise.then]. *)
Definition reauthenticated (endpoint : loc) w : loc * World U A :=
  let e := endpoints w !!! endpoint in
  let w :=
    set_endpoints
      (<[endpoint := setHeaders (buildHeaders (Some (contextOptions e)) w) e]>
         (endpoints w)) w in
  modifiedEndpoint endpoint w.

(** [reauthPromise.then(callback)], where the promise came from the provider
    action logged as [ev] and the provider state is stored back by [store]. *)
Definition reauthPromise_then {St : Type} (ev : Event) (outcome : Settled St)
    (store : St → World U A → World U A) (endpoint : loc) w
    : Completion loc * World U A :=
  match outcome with
  | Granted s =>
      let '(l, w) := reauthenticated endpoint (store s (log ev w)) in
      (Fulfilled l, w)
  | Refused s reason => (Rejected (ReauthError reason), store s (log ev w))
  end.

(** [wwwAuth && wwwAuth.indexOf('insufficient_scope') !== -1] *)
Definition insufficient_scope (wwwAuth : option string) : bool :=
  match wwwAuth with
  | None => false
  | Some s =>
      negb (String.eqb s "") && negb (indexOf s "insufficient_scope" =? -1)
  end.

Definition responseErrorHandler (response : Response) (endpoint : loc) w
    : Completion loc * World U A :=
  let wwwAuth := _headers response !! "www-authenticate" in
  if insufficient_scope wwwAuth then
    (Rejected (ResponseError InsufficientScope response endpoint), w)
  else if _status response =? 404 then
    (Rejected (ResponseError NotFound response endpoint), w)
  else if _status response =? 401 then
    if isApplicationOnly w
       || bypassAuth (contextOptions (endpoints w !!! endpoint))
    then
      reauthPromise_then CallApplicationOnlyAuth
        (applicationOnlyAuth oauthAppOnly (appOnly_state w))
        set_appOnly_state endpoint w
    else if canRefreshAccessToken oauth (oauth_state w) then
      if hasRefreshToken oauth (oauth_state w) then
        reauthPromise_then CallRefresh
          (refresh oauth (oauth_state w)) set_oauth_state endpoint w
      else if isOAuthType userConfig "script" then
        reauthPromise_then CallAuth
          (auth oauth (oauth_state w)) set_oauth_state endpoint w
      else
        (* [reauthPromise] is still undefined at [reauthPromise.then] *)
        (Thrown TypeError, w)
    else
      (Rejected (ResponseError TokenExpiredUnrecoverable response endpoint),
       log (Emit "access_token_expired") w)
  else if String.eqb (first_char (Number_toString (_status response))) "5" then
    let '(l, w) := modifiedEndpoint endpoint w in
    (Fulfilled l, w)
  else
    (Rejected (ResponseError Unrecoverable response endpoint), w).

(** [response._body || ''] *)
Definition body_or_empty (body : option string) : string :=
  match body with
  | None => ""
  | Some s => if String.eqb s "" then "" else s
  end.

Definition handleSuccessResponse (response : Response) (endpoint : loc) w
    : Completion Value :=
  let data := body_or_empty (_body response) in
  let data :=
    if decodeHtmlEntities (contextOptions (endpoints w !!! endpoint))
    then he_decode data
    else data in
  let data :=
    match JSON_parse data with
    | Some parsed => parsed
    | None => VStr data
    end in
  Fulfilled data.

(** ** Listing support *)

(** [a + b] and [a - b]. The language computes on doubles: the result is
    the exact one when both operands and the exact result are safe integers.
    Everywhere else (a result that a double would round, an operand that is
    not a number) the result is the language's, which is a parameter here. *)
Definition js_add (a b : Value) : Value :=
  match a, b with
  | VNum x, VNum y =>
      if safe_integer x && safe_integer y && safe_integer (x + y)
      then VNum (x + y)
      else coerce_add a b
  | _, _ => coerce_add a b
  end.

Definition js_sub (a b : Value) : Value :=
  match a, b with
  | VNum x, VNum y =>
      if safe_integer x && safe_integer y && safe_integer (x - y)
      then VNum (x - y)
      else coerce_sub a b
  | _, _ => coerce_sub a b
  end.

(** What one [getListing] invocation captures for all of its slices: the
    constants [limit] and [start], and the variable [count], which the
    closures reassign and which is therefore part of the state. *)
Record ListingEnv := { limit : Value; start : Value }.

Record ListingState := { count : Value; world : World U A }.

Implicit Type st : ListingState.

Definition with_world st w : ListingState :=
  {| count := count st; world := w |}.

(** The body of [getListing] up to [return getSlice(endpoint)]. *)
Definition getListing (endpoint : loc) w : ListingEnv * ListingState :=
  let count := VNum 0 in
  let limit := js_or (prop (args_of endpoint w) "limit") (VNum 25) in
  let start := js_or (prop (args_of endpoint w) "after") VNull in
  ({| limit := limit; start := start |}, {| count := count; world := w |}).

(** [v.k], raising the TypeError. *)
Definition read (v : Value) (k : string) : Error + Value :=
  match get_prop v k with
  | Some x => inr x
  | None => inl TypeError
  end.

(** [child.data.stickied] *)
Definition child_stickied (child : Value) : Error + Value :=
  data ← read child "data"; read data "stickied".

(** [child.data.name] *)
Definition child_name (child : Value) : Error + Value :=
  data ← read child "data"; read data "name".

(** [array.filter(callback)], where the callback may throw. *)
Fixpoint js_filter (callback : Value → Error + bool) (array : list Value)
    : Error + list Value :=
  match array with
  | [] => inr []
  | child :: rest =>
      callback child ≫= λ keep : bool,
      js_filter callback rest ≫= λ kept : list Value,
      inr (if keep then child :: kept else kept)
  end.

(** [result[listingIndex]] *)
Definition js_index (items : list Value) (i : Z) : Value :=
  if i <? 0 then VUndefined else default VUndefined (items !! Z.to_nat i).

(** The callback that [getSlice(endpoint)] gives to [callRedditApi(...).then],
    up to [return slice]: the fields it computes from the [result] of the call
    and from the running [count]. The parameter [result] defaults to the empty
    object. *)
Definition slice_of (endpoint : loc) (contextOptions : ContextOptions)
    (count : Value) (result : Value) : Error + slice.t :=
  let result := match result with VUndefined => VObj ∅ | _ => result end in
  listing ←
    match result with
    | VArr items =>
        match listingIndex contextOptions with
        | None =>
            inl (PlainError "Must specify a `listingIndex` for this listing.")
        | Some i => inr (js_index items i)
        end
    | _ => inr result
    end;
  data ← read listing "data";
  before ← read data "before";
  data ← read listing "data";
  after ← read data "after";
  data ← read listing "data";
  children ← read data "children";
  match js_or children (VArr []) with
  | VArr allChildren =>
      children ←
        js_filter (λ child, negb ∘ truthy <$> child_stickied child) allChildren;
      stickied ←
        js_filter (λ child, truthy <$> child_stickied child) allChildren;
      inr {| slice.get := result; slice.count := count;
             slice.before := js_or before VNull;
             slice.after := js_or after VNull;
             slice.allChildren := allChildren;
             slice.empty := bool_decide (length allChildren = 0%nat);
             slice.children := children;
             slice.stickied := stickied;
             slice.endpoint := endpoint |}
  | _ => inl TypeError  (* a value without a [filter] method *)
  end.

(** The slice is a new object; the promise of [getSlice] is fulfilled with
    it, or rejected with what the callback threw. *)
Definition getSlice_then (endpoint : loc) (result : Value) st
    : Completion loc * ListingState :=
  let w := world st in
  match slice_of endpoint (contextOptions (endpoints w !!! endpoint))
          (count st) result with
  | inl e => (Rejected e, st)
  | inr s =>
      let l := fresh (dom (slices w)) in
      (Fulfilled l, with_world st (set_slices (<[l := s]> (slices w)) w))
  end.

(** What a navigation closure does before it waits: it hands an endpoint to
    [getSlice], which issues the request, or it throws. *)
Inductive Navigation :=
  | Request (endpoint : loc)
  | Raise (e : Error).

(** [getSlice(new Endpoint(..., newArgs, ...))] at the end of [next],
    [previous] and [start]. *)
Definition getSlice_new (endpoint : loc) (newArgs : loc) w
    : Navigation * World U A :=
  let e := endpoints w !!! endpoint in
  let '(l, w) :=
    new_Endpoint userConfig (hostname e) (method e) (path e)
      (buildHeaders (Some (contextOptions e)) w)
      newArgs (contextOptions e) (port e) w in
  (Request l, w).

(** [slice.children[slice.children.length - 1]] and [slice.children[0]];
    out of range they read [undefined]. *)
Definition last_child (this : slice.t) : Error + Value :=
  inr (default VUndefined (last (slice.children this))).

Definition first_child (this : slice.t) : Error + Value :=
  inr (default VUndefined (head (slice.children this))).

Definition slice_next (env : ListingEnv) (sl : loc) st
    : Navigation * ListingState :=
  let count := js_add (count st) (limit env) in
  let w := world st in
  let this := slices w !!! sl in
  let endpoint := slice.endpoint this in
  let newArgs := args (endpoints w !!! endpoint) in
  let w := set_prop newArgs "before" VNull w in
  match last_child this ≫= child_name with
  | inl e => (Raise e, {| count := count; world := w |})
  | inr name =>
      let w := set_prop newArgs "after" name w in
      let w := set_prop newArgs "count" count w in
      let '(r, w) := getSlice_new endpoint newArgs w in
      (r, {| count := count; world := w |})
  end.

Definition slice_previous (env : ListingEnv) (sl : loc) st
    : Navigation * ListingState :=
  let count := js_sub (count st) (limit env) in
  let w := world st in
  let this := slices w !!! sl in
  let endpoint := slice.endpoint this in
  let newArgs := args (endpoints w !!! endpoint) in
  match first_child this ≫= child_name with
  | inl e => (Raise e, {| count := count; world := w |})
  | inr name =>
      let w := set_prop newArgs "before" name w in
      let w := set_prop newArgs "after" VNull w in
      let w := set_prop newArgs "count" count w in
      let '(r, w) := getSlice_new endpoint newArgs w in
      (r, {| count := count; world := w |})
  end.

Definition slice_start (env : ListingEnv) (sl : loc) st
    : Navigation * ListingState :=
  let count := VNum 0 in
  let w := world st in
  let this := slices w !!! sl in
  let endpoint := slice.endpoint this in
  let newArgs := args (endpoints w !!! endpoint) in
  let w := set_prop newArgs "before" VNull w in
  let w := set_prop newArgs "after" (start env) w in
  let w := set_prop newArgs "count" count w in
  let '(r, w) := getSlice_new endpoint newArgs w in
  (r, {| count := count; world := w |}).

Definition slice_requery (env : ListingEnv) (sl : loc) st
    : Navigation * ListingState :=
  (Request (slice.endpoint (slices (world st) !!! sl)), st).

(** ** Using a listing *)

(** The four closures of a slice. *)
Inductive Closure := Next | Previous | Start | Requery.

Definition call (env : ListingEnv) (c : Closure) (sl : loc) st
    : Navigation * ListingState :=
  match c with
  | Next => slice_next env sl st
  | Previous => slice_previous env sl st
  | Start => slice_start env sl st
  | Requery => slice_requery env sl st
  end.

(** What can happen to a listing once [getListing] has returned: the caller
    invokes a closure of some slice; a pending call is fulfilled and the
    callback of [getSlice] builds the next slice; a call fails and the
    transport runs the error handler. *)
Inductive Action :=
  | Invoke (c : Closure) (sl : loc)
  | Answer (endpoint : loc) (result : Value)
  | Failure (response : Response) (endpoint : loc).

Definition perform (env : ListingEnv) (a : Action) st : ListingState :=
  match a with
  | Invoke c sl => (call env c sl st).2
  | Answer endpoint result => (getSlice_then endpoint result st).2
  | Failure response endpoint =>
      with_world st (responseErrorHandler response endpoint (world st)).2
  end.

Definition run (env : ListingEnv) (actions : list Action) st : ListingState :=
  foldl (λ st a, perform env a st) st actions.

End RedditRequest.

Arguments ListingState : clear implicits.
Arguments count {U A} _.
Arguments world {U A} _.

(** ** OAuth requests *)

(** The module that builds the authorization URL and talks to the token
    endpoints. Its collaborators are parameters: [querystring.stringify],
    the base64 encoding of a [Buffer], the [https] function of the request
    module, [JSON.parse] with the [stack] of the error it throws, and the
    conversion of a value to a string by [+]. *)
Module oauth.

(** What a caller may pass as [scope]: nothing, one string, or an array of
    strings. *)
Inductive Scope :=
  | NoScope
  | OneScope (s : string)
  | Scopes (names : list string).

Definition normalizeScope (scope : Scope) : string :=
  match scope with
  | NoScope => "identity"
  | Scopes names => String.concat "," names
  | OneScope s => s
  end.

(** The options object; a field that was not given reads [undefined]. *)
Record Options := {
  consumerKey : option string;
  consumerSecret : option string;
  redirectUri : option string;
  username : option string;
  password : option string;
  authorizationCode : option string;
  refreshToken : option string;
  scope : Scope
}.

(** An object literal as the list of its properties, in insertion order. *)
Definition Params := list (string * option string).

(** [s + ...] on a field: [undefined] prints as its name. *)
Definition text (field : option string) : string := default "undefined" field.

Definition newline : string := String (Ascii.ascii_of_nat 10) EmptyString.

(** The first argument of [request.https], and what the call comes to. *)
Record Call := {
  call_method : string;
  call_hostname : string;
  call_path : string;
  call_headers : gmap string string
}.

Inductive Transport :=
  | Responded (response : Response)
  | Unreachable (reason : string).

Section Requests.
Variable stringify : Params → string.
Variable base64 : string → string.
Variable https : Call → string → Transport.
Variable JSON_parse : string → option Value.
Variable stack : string → string.
Variable ToString : Value → string.

(** ['Basic ' + new Buffer(key + ':' + secret).toString('base64')] *)
Definition basic_auth (options : Options) : string :=
  "Basic " +:+ base64 (text (consumerKey options) +:+ ":"
                       +:+ text (consumerSecret options)).

(** The [params] that [getAuthData] builds for [type]; [None] in the branch
    that rejects. *)
Definition auth_params (type : string) (options : Options) : option Params :=
  let params := [("scope", Some (normalizeScope (scope options)))] in
  if String.eqb type "script" then
    Some (params ++ [("grant_type", Some "password");
                     ("username", username options);
                     ("password", password options)])
  else if String.eqb type "installed" || String.eqb type "web" then
    Some (params ++ [("grant_type", Some "authorization_code");
                     ("client_id", consumerKey options);
                     ("redirect_uri", redirectUri options);
                     ("code", authorizationCode options)])
  else if String.eqb type "refresh" then
    Some (params ++ [("grant_type", Some "refresh_token");
                     ("refresh_token", refreshToken options)])
  else None.

Definition token_call (path : string) (options : Options) : Call :=
  {| call_method := "POST"; call_hostname := "ssl.reddit.com";
     call_path := path;
     call_headers := {["Authorization" := basic_auth options]} |}.

(** The callback given to [then] in [getAuthData]. An error it throws
    rejects the promise. *)
Definition auth_data_of (response : Response) : Completion Value :=
  let body := text (_body response) in
  match JSON_parse body with
  | None =>
      Rejected (PlainError ("Failed to get Auth Data:" +:+ newline +:+ body
                            +:+ newline +:+ stack body))
  | Some data =>
      match get_prop data "error" with
      | None => Rejected TypeError
      | Some error =>
          if truthy error
          then Rejected (PlainError ("Reddit Error:" +:+ newline
                                     +:+ ToString error))
          else Fulfilled data
      end
  end.

(** [getAuthData(type, options)]: the requests it sends, and how its promise
    settles. A rejection of the transport passes through with its reason. *)
Definition getAuthData (type : string) (options : Options)
    : list (Call * string) * Completion Value :=
  match auth_params type options with
  | None => ([], Rejected (PlainError "invalid type specified"))
  | Some params =>
      let request := token_call "/api/v1/access_token" options in
      let form := stringify params in
      ([(request, form)],
       match https request form with
       | Unreachable reason => Rejected (PlainError reason)
       | Responded response => auth_data_of response
       end)
  end.

(** [revokeToken(token, isRefreshToken, options)]; it is fulfilled with
    [undefined]. *)
Definition revokeToken (token : option string) (isRefreshToken : bool)
    (options : Options) : list (Call * string) * Completion Value :=
  let tokenTypeHint :=
    if isRefreshToken then "refresh_token" else "access_token" in
  let params := [("token", token); ("token_type_hint", Some tokenTypeHint)] in
  let request := token_call "/api/v1/revoke_token" options in
  let form := stringify params in
  ([(request, form)],
   match https request form with
   | Unreachable reason => Rejected (PlainError reason)
   | Responded response =>
       if _status response =? 204
       then Fulfilled VUndefined
       else Rejected (PlainError "Unable to revoke the given token")
   end).

End Requests.

(** The types [getAuthData] accepts. *)
Definition auth_types : list string := ["script"; "installed"; "web"; "refresh"].

End oauth.

(** ** Properties to state the claims with *)

(** [needle] occurs in [hay]. *)
Definition contains (hay needle : string) : Prop :=
  ∃ pre post : string, hay = String.append pre (String.append needle post).



Definition not_stickied (child : Value) : Prop :=
  ∃ v, child_stickied child = inr v ∧ truthy v = false.

(** [e'] repeats the call of [e], with the headers [h]. *)
Definition same_call (h : gmap string string) (e e' : Endpoint) : Prop :=
  hostname e' = hostname e ∧ method e' = method e ∧ path e' = path e
  ∧ args e' = args e ∧ contextOptions e' = contextOptions e
  ∧ port e' = port e ∧ headers e' = h.

(** No header of the response reports a missing scope. *)
Definition scope_granted (response : Response) : Prop :=
  ∀ s, _headers response !! "www-authenticate" = Some s →
       ¬ contains s "insufficient_scope".

(** The keys that the navigation closures write. *)
Definition cursor_keys : list string := ["before"; "after"; "count"].

(** [w'] is [w] except for the cursor keys of the mapping [o]. *)
Definition cursor_written {U A : Type} (o : loc) (w w' : World U A) : Prop :=
  slices w' = slices w
  ∧ endpoints w' = endpoints w
  ∧ events w' = events w
  ∧ (∀ o', o' ≠ o → objects w' !! o' = objects w !! o')
  ∧ (∀ k, k ∉ cursor_keys → (objects w' !!! o) !! k = (objects w !!! o) !! k).

(** ** Fixtures *)

Module fixture.

(** A provider whose state is the token flags themselves. *)
Record Tokens := {
  access_token : bool;
  can_refresh : bool;
  refresh_token : bool;
  bearer : string
}.

Definition renew (t : Tokens) : Tokens :=
  {| access_token := true; can_refresh := can_refresh t;
     refresh_token := refresh_token t; bearer := "bearer renewed" |}.

(** Its token endpoint either grants every request or refuses every one. *)
Definition provider (grants : bool) : OAuth Tokens :=
  let action t :=
    if grants then Granted (renew t) else Refused t "invalid_grant" in
  {| hasAccessToken := access_token;
     canRefreshAccessToken := can_refresh;
     hasRefreshToken := refresh_token;
     getAuthorizationHeader := bearer;
     refresh := action; auth := action; applicationOnlyAuth := action |}.

Definition config (type : string) : UserConfig :=
  {| isNode := true; userAgent := "snoocore-test";
     isOAuthType := String.eqb type;
     serverOAuth := "oauth.reddit.com"; serverOAuthPort := 443 |}.

Definition user (can_refresh refresh_token : bool) : Tokens :=
  {| access_token := true; can_refresh := can_refresh;
     refresh_token := refresh_token; bearer := "bearer stale" |}.

Definition application : Tokens :=
  {| access_token := true; can_refresh := false; refresh_token := false;
     bearer := "bearer app" |}.

Definition options : ContextOptions :=
  {| bypassAuth := false; decodeHtmlEntities := false; listingIndex := None |}.

(** [GET /r/test/new] with [limit=2], as endpoint 1 over the mapping 1. *)
Definition new_posts : Endpoint :=
  {| hostname := "oauth.reddit.com"; method := "get"; path := "/r/test/new";
     headers := {["Authorization" := "bearer stale"]};
     givenArgs := 1%positive; contextOptions := options; port := 443 |}.

Definition world_of (t : Tokens) : World Tokens Tokens :=
  {| oauth_state := t; appOnly_state := application;
     endpoints := {[1%positive := new_posts]};
     objects := {[1%positive := {["limit" := VNum 2]}]};
     slices := ∅; events := [] |}.

Definition expired : Response :=
  {| _status := 401; _headers := ∅; _body := None |}.

Definition scope_denied : Response :=
  {| _status := 401;
     _headers := {["www-authenticate" := "Bearer error=insufficient_scope"]};
     _body := None |}.

Definition busy : Response :=
  {| _status := 503; _headers := ∅; _body := Some "Service Unavailable" |}.

(** A parser that knows two documents, and a decoder that knows one entity. *)
Definition parse (s : string) : option Value :=
  if String.eqb s "null" then Some VNull
  else if String.eqb s "[]" then Some (VArr [])
  else None.

Definition decode (s : string) : string :=
  if String.eqb s "&#91;&#93;" then "[]" else s.

Definition coerce (a b : Value) : Value := VNaN.

Definition post (name : string) (stickied : bool) : Value :=
  VObj {["data" := VObj {["name" := VStr name; "stickied" := VBool stickied]}]}.

(** The page [A, B (stickied), C]. *)
Definition page : Value :=
  VObj {["data" :=
    VObj {["after" := VStr "t3_c"; "before" := VNull;
           "children" := VArr [post "t3_a" false; post "t3_b" true;
                               post "t3_c" false]]}]}.

(** The same endpoint when the caller asked for entities to be decoded. *)
Definition decoding (w : World Tokens Tokens) : World Tokens Tokens :=
  set_endpoints
    {[1%positive :=
        {| hostname := "oauth.reddit.com"; method := "get";
           path := "/r/test/new"; headers := ∅; givenArgs := 1%positive;
           contextOptions := {| bypassAuth := false;
                                decodeHtmlEntities := true;
                                listingIndex := None |};
           port := 443 |}]} w.

Definition answer (body : option string) : Response :=
  {| _status := 200; _headers := ∅; _body := body |}.

(** A listing over [new_posts], and its state once the first page is in. *)
Definition listing : ListingEnv * ListingState Tokens Tokens :=
  getListing 1%positive (world_of (user true true)).

Definition browsing : ListingState Tokens Tokens :=
  (getSlice_then 1%positive page listing.2).2.

(** The same listing when its first page comes back without children. *)
Definition no_posts : Value :=
  VObj {["data" := VObj {["children" := VArr []]}]}.

Definition at_the_end : ListingState Tokens Tokens :=
  (getSlice_then 1%positive no_posts listing.2).2.

(** A listing that was asked to begin after [t3_x]. *)
Definition world_from (cursor : string) : World Tokens Tokens :=
  set_prop 1%positive "after" (VStr cursor) (world_of (user true true)).

(** A response with the given status, no header and no body. *)
Definition respond (status : Z) : Response :=
  {| _status := status; _headers := ∅; _body := None |}.

(** A client that never signed a user in. *)
Definition anonymous : Tokens :=
  {| access_token := false; can_refresh := false; refresh_token := false;
     bearer := "" |}.

(** The same world for an endpoint that names element [i] of an array. *)
Definition indexed (i : Z) (w : World Tokens Tokens) : World Tokens Tokens :=
  set_endpoints
    {[1%positive :=
        {| hostname := "oauth.reddit.com"; method := "get";
           path := "/comments/abc"; headers := ∅; givenArgs := 1%positive;
           contextOptions := {| bypassAuth := false;
                                decodeHtmlEntities := false;
                                listingIndex := Some i |};
           port := 443 |}]} w.

(** A page whose [data] has no [children]. *)
Definition bare : gmap string Value :=
  {["data" := VObj {["after" := VStr ""]}]}.

(** Collaborators of the OAuth module: a form encoder without escaping, an
    encoding that marks its input, and token endpoints that answer every
    request for a token with the same document and every revocation with
    the given status. *)
Definition stringify (params : oauth.Params) : string :=
  String.concat "&" ((λ p, p.1 +:+ "=" +:+ default "" p.2) <$> params).

Definition base64 (s : string) : string := "b64(" +:+ s +:+ ")".

Definition granted : Value :=
  VObj {["access_token" := VStr "abc"; "expires_in" := VNum 3600]}.

Definition https (revoked : Z) (call : oauth.Call) (form : string)
    : oauth.Transport :=
  if String.eqb (oauth.call_path call) "/api/v1/revoke_token"
  then oauth.Responded (respond revoked)
  else oauth.Responded (answer (Some "token")).

Definition parse_token (s : string) : option Value :=
  if String.eqb s "token" then Some granted else None.

Definition stack (s : string) : string := "SyntaxError".

Definition print (v : Value) : string := "".

Definition app : oauth.Options :=
  {| oauth.consumerKey := Some "key"; oauth.consumerSecret := Some "secret";
     oauth.redirectUri := Some "https://example.com/cb";
     oauth.username := Some "alice"; oauth.password := Some "hunter2";
     oauth.authorizationCode := Some "code"; oauth.refreshToken := Some "rt";
     oauth.scope := oauth.Scopes ["identity"; "read"] |}.

End fixture.

(** * Properties *)

(** ** Strings and numbers *)

Lemma append_cons (c : Ascii.ascii) (s t : string) :
  String.append (String c s) t = String c (String.append s t).
Proof. reflexivity. Qed.

Lemma append_nil (t : string) : String.append "" t = t.
Proof. reflexivity. Qed.

Lemma prefix_append (needle hay : string) :
  String.prefix needle hay = true ↔ ∃ post, hay = String.append needle post.
Proof.
  revert hay. induction needle as [|a needle IH]; intros hay; simpl.
  - split; [intros _; by exists hay | by destruct hay].
  - setoid_rewrite append_cons. destruct hay as [|b hay]; simpl.
    + split; [done | intros [post ?]; done].
    + destruct (Ascii.ascii_dec a b) as [->|Hne].
      * rewrite IH. split; intros [post Hpost]; exists post; congruence.
      * split; [done | intros [post Hpost]; congruence].
Qed.

Lemma indexOf_from_found (i : Z) (hay needle : string) :
  0 ≤ i → indexOf_from i hay needle ≠ -1 ↔ contains hay needle.
Proof.
  revert i. induction hay as [|c hay IH]; intros i Hi; cbn [indexOf_from].
  - destruct (String.prefix needle "") eqn:Hp.
    + split; [intros _ | lia].
      apply prefix_append in Hp as [post Hpost]. by exists "", post.
    + split; [done | intros (pre & post & Heq)]. exfalso.
      destruct pre; [rewrite append_nil in Heq | by rewrite append_cons in Heq].
      assert (String.prefix needle "" = true) as Hp'
        by (apply prefix_append; eauto).
      congruence.
  - destruct (String.prefix needle (String c hay)) eqn:Hp.
    + split; [intros _ | lia].
      apply prefix_append in Hp as [post Hpost]. by exists "", post.
    + rewrite (IH (i + 1)) by lia. split.
      * intros (pre & post & ->). by exists (String c pre), post.
      * intros (pre & post & Heq). destruct pre as [|c' pre].
        -- rewrite append_nil in Heq.
           assert (String.prefix needle (String c hay) = true) as Hp'
             by (apply prefix_append; eauto).
           congruence.
        -- rewrite append_cons in Heq. injection Heq as -> ->.
           by exists pre, post.
Qed.

Lemma indexOf_found (hay needle : string) :
  indexOf hay needle ≠ -1 ↔ contains hay needle.
Proof. by apply indexOf_from_found. Qed.

(** The scope check of the handler fires exactly on a [www-authenticate]
    header in which [insufficient_scope] occurs. *)
Lemma insufficient_scope_spec (wwwAuth : option string) :
  insufficient_scope wwwAuth = true
  ↔ ∃ s, wwwAuth = Some s ∧ contains s "insufficient_scope".
Proof.
  unfold insufficient_scope. destruct wwwAuth as [s|].
  - rewrite andb_true_iff, !negb_true_iff, Z.eqb_neq, indexOf_found. split.
    + intros [_ ?]. eauto.
    + intros (? & [= <-] & Hc). split; [|done].
      apply String.eqb_neq. intros ->.
      destruct Hc as (pre & post & Heq). by destruct pre.
  - split; [done | by intros (? & ? & ?)].
Qed.

Lemma insufficient_scope_absent (wwwAuth : option string) :
  (∀ s, wwwAuth = Some s → ¬ contains s "insufficient_scope") →
  insufficient_scope wwwAuth = false.
Proof.
  intros Hno. apply not_true_is_false. rewrite insufficient_scope_spec.
  intros (s & Hs & Hc). by apply (Hno s).
Qed.

(** Every status from 500 to 599 prints with a leading [5]. *)
Lemma first_char_5xx (status : Z) :
  500 ≤ status ≤ 599 → first_char (Number_toString status) = "5".
Proof.
  intros Hs.
  assert (forallb (λ k, String.eqb
            (first_char (Number_toString (500 + Z.of_nat k))) "5")
            (seq 0 100) = true) as Hall by (vm_compute; reflexivity).
  rewrite forallb_forall in Hall.
  specialize (Hall (Z.to_nat (status - 500))).
  replace (500 + Z.of_nat (Z.to_nat (status - 500))) with status in Hall by lia.
  apply String.eqb_eq, Hall, in_seq. lia.
Qed.

(** ** The error handler *)

Section ErrorHandling.
Context {U A : Type}.
Variable userConfig : UserConfig.
Variable oauth : OAuth U.
Variable oauthAppOnly : OAuth A.
Implicit Type w : World U A.

Local Abbreviation handler := (responseErrorHandler userConfig oauth oauthAppOnly).
Local Abbreviation headers_for := (buildHeaders userConfig oauth oauthAppOnly).

(** Headers depend on the provider states only. *)
Lemma buildHeaders_frame o w w' :
  oauth_state w' = oauth_state w → appOnly_state w' = appOnly_state w →
  headers_for o w' = headers_for o w.
Proof.
  intros Hu Ha. unfold buildHeaders, isApplicationOnly. by rewrite Hu, Ha.
Qed.

Lemma modifiedEndpoint_new endpoint w :
  ∃ l e',
    modifiedEndpoint userConfig oauth oauthAppOnly endpoint w
      = (l, set_endpoints (<[l := e']> (endpoints w)) w)
    ∧ endpoints w !! l = None
    ∧ same_call (headers_for (Some (contextOptions (endpoints w !!! endpoint))) w)
        (endpoints w !!! endpoint) e'.
Proof.
  unfold modifiedEndpoint, new_Endpoint. eexists _, _. split; [done|]. split.
  - apply not_elem_of_dom, is_fresh.
  - by repeat split.
Qed.

Lemma status_5_not_40x (status : Z) :
  first_char (Number_toString status) = "5" → status ≠ 404 ∧ status ≠ 401.
Proof. intros H. split; intros ->; vm_compute in H; discriminate. Qed.

(** C2. A response whose [www-authenticate] header contains
    [insufficient_scope] is rejected with the InsufficientScope error, which
    carries the response and the endpoint, whatever its status; the world is
    left as it was: no provider is called, nothing is emitted and no endpoint
    is built for a retry. *)
Theorem insufficient_scope_rejects response endpoint w s :
  _headers response !! "www-authenticate" = Some s →
  contains s "insufficient_scope" →
  handler response endpoint w
  = (Rejected (ResponseError InsufficientScope response endpoint), w).
Proof.
  intros Hs Hc. unfold responseErrorHandler.
  assert (insufficient_scope (_headers response !! "www-authenticate") = true)
    as -> by (apply insufficient_scope_spec; eauto).
  done.
Qed.

(** C3. A response without the scope header whose status prints with a
    leading [5] fulfils the handler with one new endpoint that repeats the
    call of the failing one (same host, verb, path, arguments, options and
    port) with the headers of [buildHeaders]; the providers are not called
    and nothing else in the world changes. *)
Theorem server_error_retries response endpoint w :
  scope_granted response →
  first_char (Number_toString (_status response)) = "5" →
  ∃ l e' w',
    handler response endpoint w = (Fulfilled l, w')
    ∧ endpoints w !! l = None
    ∧ endpoints w' = <[l := e']> (endpoints w)
    ∧ same_call (headers_for (Some (contextOptions (endpoints w !!! endpoint))) w)
        (endpoints w !!! endpoint) e'
    ∧ events w' = events w
    ∧ oauth_state w' = oauth_state w
    ∧ appOnly_state w' = appOnly_state w
    ∧ objects w' = objects w.
Proof.
  intros Hscope H5. unfold responseErrorHandler.
  rewrite (insufficient_scope_absent _ Hscope).
  destruct (status_5_not_40x _ H5) as [H404 H401].
  apply Z.eqb_neq in H404 as ->. apply Z.eqb_neq in H401 as ->.
  rewrite H5. change (String.eqb "5" "5") with true. cbv iota.
  destruct (modifiedEndpoint_new endpoint w) as (l & e' & -> & Hnew & Hsame).
  by exists l, e', (set_endpoints (<[l := e']> (endpoints w)) w).
Qed.

(** On a 401 that passes the scope check, with a user provider that can
    refresh, holds no refresh token and is not of type [script], no branch
    assigns [reauthPromise]. *)
Lemma reauthPromise_undefined response endpoint w :
  scope_granted response →
  _status response = 401 →
  isApplicationOnly oauth w = false →
  bypassAuth (contextOptions (endpoints w !!! endpoint)) = false →
  canRefreshAccessToken oauth (oauth_state w) = true →
  hasRefreshToken oauth (oauth_state w) = false →
  isOAuthType userConfig "script" = false →
  handler response endpoint w = (Thrown TypeError, w).
Proof.
  intros Hscope Hst Happ Hby Hcan Hhas Hty. unfold responseErrorHandler.
  rewrite (insufficient_scope_absent _ Hscope), Hst, Happ, Hby, Hcan, Hhas, Hty.
  done.
Qed.

(** C1, amended. On a 401 that passes the scope check, without [bypassAuth],
    with a user provider that can refresh and holds a refresh token: [refresh]
    is called once and no other provider action is; and when the refresh
    succeeds the handler is fulfilled with one new endpoint that repeats the
    call of the failing one with the headers [buildHeaders] gives after the
    refresh; the failing endpoint gets the same headers. *)
Theorem refresh_then_retry response endpoint w :
  scope_granted response →
  _status response = 401 →
  bypassAuth (contextOptions (endpoints w !!! endpoint)) = false →
  canRefreshAccessToken oauth (oauth_state w) = true →
  hasRefreshToken oauth (oauth_state w) = true →
  events (handler response endpoint w).2 = events w ++ [CallRefresh]
  ∧ ∀ s', refresh oauth (oauth_state w) = Granted s' →
    ∃ l e' w',
      handler response endpoint w = (Fulfilled l, w')
      ∧ oauth_state w' = s'
      ∧ appOnly_state w' = appOnly_state w
      ∧ endpoints w !! l = None ∧ l ≠ endpoint
      ∧ let h := headers_for (Some (contextOptions (endpoints w !!! endpoint))) w' in
        endpoints w'
        = <[l := e']> (<[endpoint := setHeaders h (endpoints w !!! endpoint)]>
                         (endpoints w))
        ∧ same_call h (endpoints w !!! endpoint) e'.
Proof.
  intros Hscope Hst Hby Hcan Hhas. unfold responseErrorHandler.
  assert (isApplicationOnly oauth w = false) as Happ
    by (unfold isApplicationOnly; rewrite Hcan; apply andb_false_r).
  rewrite (insufficient_scope_absent _ Hscope), Hst, Happ, Hby, Hcan, Hhas.
  cbn -[modifiedEndpoint buildHeaders reauthPromise_then]. split.
  { unfold reauthPromise_then, reauthenticated.
    destruct (refresh oauth (oauth_state w)) as [s'|s' reason]; [|done].
    set (w2 := set_endpoints _ _).
    by destruct (modifiedEndpoint_new endpoint w2) as (l & e' & -> & _). }
  intros s' ->. unfold reauthPromise_then, reauthenticated.
  set (e := endpoints w !!! endpoint).
  set (w1 := set_oauth_state s' (log CallRefresh w)).
  set (h := buildHeaders _ _ _ _ w1).
  set (w2 := set_endpoints _ w1).
  destruct (modifiedEndpoint_new endpoint w2) as (l & e' & -> & Hnew & Hsame).
  exists l, e', (set_endpoints (<[l := e']> (endpoints w2)) w2).
  assert (endpoints w2 !!! endpoint = setHeaders h e) as Hread
    by (subst w2; simpl; apply lookup_total_insert_eq).
  rewrite Hread in Hsame. simpl in Hsame.
  assert (l ≠ endpoint) as Hne.
  { intros ->. subst w2. simpl in Hnew. by rewrite lookup_insert_eq in Hnew. }
  assert (headers_for (Some (contextOptions e))
            (set_endpoints (<[l := e']> (endpoints w2)) w2) = h) as ->
    by (by apply buildHeaders_frame).
  split_and!; try done.
  subst w2. simpl in Hnew. by rewrite lookup_insert_ne in Hnew.
Qed.

(** C4, amended. On a 401 that passes the scope check, while not operating
    app-only and without [bypassAuth], with a user provider that cannot
    refresh: [access_token_expired] is emitted once and the handler is
    rejected with the TokenExpiredUnrecoverable error carrying the response
    and the endpoint; no provider is called and no endpoint is built. *)
Theorem expired_token_unrecoverable response endpoint w :
  scope_granted response →
  _status response = 401 →
  isApplicationOnly oauth w = false →
  bypassAuth (contextOptions (endpoints w !!! endpoint)) = false →
  canRefreshAccessToken oauth (oauth_state w) = false →
  handler response endpoint w
  = (Rejected (ResponseError TokenExpiredUnrecoverable response endpoint),
     log (Emit "access_token_expired") w).
Proof.
  intros Hscope Hst Happ Hby Hcan. unfold responseErrorHandler.
  by rewrite (insufficient_scope_absent _ Hscope), Hst, Happ, Hby, Hcan.
Qed.

End ErrorHandling.

(** ** The success handler *)

Section SuccessHandling.
Context {U A : Type}.
Variable JSON_parse : string → option Value.
Variable he_decode : string → string.
Implicit Type w : World U A.

Lemma body_or_empty_default (body : option string) :
  body_or_empty body = default "" body.
Proof.
  destruct body as [s|]; simpl; [|done].
  destruct (String.eqb s "") eqn:Hs; [|done]. by apply String.eqb_eq in Hs.
Qed.

(** C5. [handleSuccessResponse] always returns a fulfilled promise. Its value
    comes from the body, or the empty string when there is none, decoded
    first when [decodeHtmlEntities] is set: the parsed document when that text
    parses, the text itself otherwise. *)
Theorem handleSuccessResponse_resolves response endpoint w :
  let body := default "" (_body response) in
  let text :=
    if decodeHtmlEntities (contextOptions (endpoints w !!! endpoint))
    then he_decode body else body in
  handleSuccessResponse JSON_parse he_decode response endpoint w
  = Fulfilled (match JSON_parse text with
               | Some parsed => parsed
               | None => VStr text
               end).
Proof.
  intros body text. unfold handleSuccessResponse.
  by rewrite body_or_empty_default.
Qed.

End SuccessHandling.

(** An encoded [[]] parses only when the endpoint asks for decoding; a
    response without a body gives the empty string. *)
Lemma handleSuccessResponse_examples :
  let w := fixture.world_of (fixture.user true true) in
  let handle := handleSuccessResponse fixture.parse fixture.decode in
  handle (fixture.answer (Some "&#91;&#93;")) 1%positive (fixture.decoding w)
    = Fulfilled (VArr [])
  ∧ handle (fixture.answer (Some "&#91;&#93;")) 1%positive w
    = Fulfilled (VStr "&#91;&#93;")
  ∧ handle (fixture.answer (Some "null")) 1%positive w = Fulfilled VNull
  ∧ handle (fixture.answer None) 1%positive w = Fulfilled (VStr "").
Proof. repeat split; vm_compute; reflexivity. Qed.

(** ** Slices *)


Lemma slice_of_built endpoint contextOptions count result s :
  slice_of endpoint contextOptions count result = inr s →
  js_filter (λ child, negb ∘ truthy <$> child_stickied child)
    (slice.allChildren s) = inr (slice.children s)
  ∧ js_filter (λ child, truthy <$> child_stickied child)
      (slice.allChildren s) = inr (slice.stickied s)
  ∧ slice.empty s = bool_decide (length (slice.allChildren s) = 0%nat)
  ∧ slice.count s = count ∧ slice.endpoint s = endpoint.
Proof.
  unfold slice_of, mbind, Error_bind. intros H.
  repeat match type of H with
         | match ?m with _ => _ end = _ => destruct m eqn:?; try done
         end.
  by injection H as <-.
Qed.

Lemma stickied_child_named (child v : Value) :
  child_stickied child = inr v → ∃ name, child_name child = inr name.
Proof.
  unfold child_stickied, child_name, mbind, Error_bind.
  destruct (read child "data") as [e|data]; [done|].
  unfold read. destruct (get_prop data "stickied") eqn:Hdata; [|done].
  intros _. destruct data; try done; simpl; eauto.
Qed.

(** [child.data.name] is two reads. *)
Lemma child_name_reads (child name : Value) :
  child_name child = inr name →
  ∃ data, get_prop child "data" = Some data ∧ get_prop data "name" = Some name.
Proof.
  unfold child_name, mbind, Error_bind, read.
  destruct (get_prop child "data") as [data|]; [|done].
  destruct (get_prop data "name") as [v|] eqn:Hv; [|done].
  intros [= <-]. by exists data.
Qed.

Lemma last_child_named (this : slice.t) :
  slice.children this ≠ [] → Forall not_stickied (slice.children this) →
  ∃ cN name,
    last (slice.children this) = Some cN
    ∧ child_name cN = inr name
    ∧ last_child this ≫= child_name = inr name.
Proof.
  intros Hne Hall. apply last_is_Some in Hne as [cN HcN].
  assert (not_stickied cN) as (v & Hv & _).
  { eapply Forall_forall; [exact Hall|]. by eapply last_Some_elem_of. }
  destruct (stickied_child_named _ _ Hv) as [name Hname].
  exists cN, name. unfold last_child. by rewrite HcN.
Qed.

Lemma first_child_named (this : slice.t) :
  slice.children this ≠ [] → Forall not_stickied (slice.children this) →
  ∃ c1 name,
    head (slice.children this) = Some c1
    ∧ child_name c1 = inr name
    ∧ first_child this ≫= child_name = inr name.
Proof.
  intros Hne Hall. apply head_is_Some in Hne as [c1 Hc1].
  assert (not_stickied c1) as (v & Hv & _).
  { eapply Forall_forall; [exact Hall|]. by eapply head_Some_elem_of. }
  destruct (stickied_child_named _ _ Hv) as [name Hname].
  exists c1, name. unfold first_child. by rewrite Hc1.
Qed.



Section Listing.
Context {U A : Type}.
Variable userConfig : UserConfig.
Variable oauth : OAuth U.
Variable oauthAppOnly : OAuth A.
Variable coerce_add coerce_sub : Value → Value → Value.
Implicit Type w : World U A.
Implicit Type st : ListingState U A.

Local Abbreviation headers_for := (buildHeaders userConfig oauth oauthAppOnly).
Local Abbreviation next := (slice_next userConfig oauth oauthAppOnly coerce_add).
Local Abbreviation start_over := (slice_start userConfig oauth oauthAppOnly).
Local Abbreviation invoke :=
  (call userConfig oauth oauthAppOnly coerce_add coerce_sub).
Local Abbreviation running :=
  (run userConfig oauth oauthAppOnly coerce_add coerce_sub).


(** On safe integers with a safe result, [+] and [-] are exact. *)
Lemma js_add_numbers (x y : Z) :
  safe_integer x = true → safe_integer y = true →
  safe_integer (x + y) = true →
  js_add coerce_add (VNum x) (VNum y) = VNum (x + y).
Proof. intros Hx Hy Hxy. unfold js_add. by rewrite Hx, Hy, Hxy. Qed.

Lemma js_sub_numbers (x y : Z) :
  safe_integer x = true → safe_integer y = true →
  safe_integer (x - y) = true →
  js_sub coerce_sub (VNum x) (VNum y) = VNum (x - y).
Proof. intros Hx Hy Hxy. unfold js_sub. by rewrite Hx, Hy, Hxy. Qed.

Lemma safe_integer_bounds (n : Z) :
  safe_integer n = true ↔ - MAX_SAFE_INTEGER ≤ n ≤ MAX_SAFE_INTEGER.
Proof. unfold safe_integer. rewrite andb_true_iff, !Z.leb_le. lia. Qed.

(** Writing a property changes one mapping and nothing else. *)
Lemma set_prop_same o k v w :
  objects (set_prop o k v w) !!! o = <[k := v]> (objects w !!! o).
Proof. apply lookup_total_insert_eq. Qed.

Lemma set_prop_other o o' k v w :
  o ≠ o' → objects (set_prop o k v w) !! o' = objects w !! o'.
Proof. intros. by apply lookup_insert_ne. Qed.

Lemma set_prop_other_key o k k' v w :
  k ≠ k' → (objects (set_prop o k v w) !!! o) !! k' = (objects w !!! o) !! k'.
Proof. intros. rewrite set_prop_same. by apply lookup_insert_ne. Qed.

Lemma args_of_new l e' w :
  args_of l (set_endpoints (<[l := e']> (endpoints w)) w)
  = objects w !!! givenArgs e'.
Proof. unfold args_of, args. cbn. by rewrite lookup_total_insert_eq. Qed.

(** The request of [next], [previous] and [start]: a new endpoint over the
    mapping [newArgs], everything else as in the world it is built in. *)
Lemma getSlice_new_request endpoint newArgs w :
  ∃ l e',
    getSlice_new userConfig oauth oauthAppOnly endpoint newArgs w
      = (Request l, set_endpoints (<[l := e']> (endpoints w)) w)
    ∧ endpoints w !! l = None
    ∧ givenArgs e' = newArgs
    ∧ hostname e' = hostname (endpoints w !!! endpoint)
    ∧ method e' = method (endpoints w !!! endpoint)
    ∧ path e' = path (endpoints w !!! endpoint)
    ∧ contextOptions e' = contextOptions (endpoints w !!! endpoint)
    ∧ port e' = port (endpoints w !!! endpoint)
    ∧ headers e'
      = headers_for (Some (contextOptions (endpoints w !!! endpoint))) w.
Proof.
  unfold getSlice_new, new_Endpoint. eexists _, _. split; [done|].
  split; [apply not_elem_of_dom, is_fresh | by repeat split].
Qed.

(** What [next()] writes and issues, in terms of what it computes. *)
Lemma slice_next_issues endpoint0 w0 env st0 sl st s kids cN :
  getListing endpoint0 w0 = (env, st0) →
  slices (world st) !! sl = Some s →
  Forall not_stickied (slice.children s) →
  slice.children s = kids ++ [cN] →
  ∃ name l st',
    child_name cN = inr name
    ∧ next env sl st = (Request l, st')
    ∧ endpoints (world st) !! l = None
    ∧ prop (args_of l (world st')) "after" = name
    ∧ prop (args_of l (world st')) "before" = VNull
    ∧ prop (args_of l (world st')) "count"
      = js_add coerce_add (count st) (limit env)
    ∧ count st' = js_add coerce_add (count st) (limit env)
    ∧ limit env = js_or (prop (args_of endpoint0 w0) "limit") (VNum 25).
Proof.
  intros [= <- <-] Hsl Hkids Hlast.
  assert (not_stickied cN) as (v & Hv & _).
  { rewrite Hlast in Hkids. apply Forall_app in Hkids as [_ Hkids].
    by apply (Forall_singleton not_stickied cN). }
  destruct (stickied_child_named _ _ Hv) as [name Hname].
  unfold slice_next, last_child. rewrite (lookup_total_correct _ _ _ Hsl).
  rewrite Hlast, last_snoc. simpl default.
  change (inr cN ≫= child_name) with (child_name cN). rewrite Hname.
  set (newArgs := args _).
  set (w3 := set_prop newArgs "count" _ _).
  destruct (getSlice_new_request (slice.endpoint s) newArgs w3)
    as (l & e' & -> & Hnew & Hargs & _).
  exists name, l. eexists. split; [done|]. split; [done|].
  split; [done|]. cbn [world count].
  assert (args_of l (set_endpoints (<[l := e']> (endpoints w3)) w3)
          = <["count" := js_add coerce_add (count st) (js_or
               (prop (args_of endpoint0 w0) "limit") (VNum 25))]>
              (<["after" := name]>
                 (<["before" := VNull]> (objects (world st) !!! newArgs)))) as ->.
  { rewrite args_of_new, Hargs. subst w3. by rewrite !set_prop_same. }
  unfold prop. by simplify_map_eq.
Qed.

(** C7. [next()] on a slice whose non-stickied children are [c1..cN] issues
    a request over arguments in which [after] is the value read at
    [cN.data.name], [before] is [null] and [count] is the sum of the running
    count [c] and [limit], which becomes the new running count. [limit] is
    [args.limit] of the endpoint given to [getListing] when that is truthy,
    and 25 otherwise; the sum is the integer [c + limit] for safe integers
    with a safe sum. *)
Theorem next_request endpoint0 w0 env st0 sl st s kids cN c n :
  getListing endpoint0 w0 = (env, st0) →
  slices (world st) !! sl = Some s →
  Forall not_stickied (slice.children s) →
  slice.children s = kids ++ [cN] →
  count st = VNum c →
  (let given := prop (args_of endpoint0 w0) "limit" in
   if truthy given then given else VNum 25) = VNum n →
  safe_integer c = true → safe_integer n = true →
  safe_integer (c + n) = true →
  ∃ data name l st',
    get_prop cN "data" = Some data
    ∧ get_prop data "name" = Some name
    ∧ next env sl st = (Request l, st')
    ∧ endpoints (world st) !! l = None
    ∧ prop (args_of l (world st')) "after" = name
    ∧ prop (args_of l (world st')) "before" = VNull
    ∧ prop (args_of l (world st')) "count" = VNum (c + n)
    ∧ count st' = VNum (c + n).
Proof.
  intros Hlisting Hsl Hkids Hlast Hc Hn Hsc Hsn Hsum.
  destruct (slice_next_issues _ _ _ _ _ _ _ _ _ Hlisting Hsl Hkids Hlast)
    as (name & l & st' & Hname & Hnext & Hnew & Hafter & Hbefore & Hcount
        & Hrunning & Hlimit).
  destruct (child_name_reads _ _ Hname) as (data & Hdata & Hread).
  assert (js_add coerce_add (count st) (limit env) = VNum (c + n)) as Hsumv.
  { rewrite Hlimit, Hc. unfold js_or. cbv zeta in Hn. rewrite Hn.
    by apply js_add_numbers. }
  exists data, name, l, st'. rewrite <- Hsumv. by split_and!.
Qed.


End Listing.

Section Navigation.
Context {U A : Type}.
Variable userConfig : UserConfig.
Variable oauth : OAuth U.
Variable oauthAppOnly : OAuth A.
Variable coerce_add coerce_sub : Value → Value → Value.
Implicit Type w : World U A.
Implicit Type st : ListingState U A.

Local Abbreviation invoke :=
  (call userConfig oauth oauthAppOnly coerce_add coerce_sub).

Lemma cursor_written_refl o w : cursor_written o w w.
Proof. by repeat split. Qed.

Lemma cursor_written_set_prop o k v w w' :
  k ∈ cursor_keys → cursor_written o w w' →
  cursor_written o w (set_prop o k v w').
Proof.
  intros Hk (Hs & He & Hev & Ho & Hkeys). split_and!; try done.
  - intros o' Hne. rewrite set_prop_other by done. by apply Ho.
  - intros k' Hk'. rewrite set_prop_other_key by (by intros ->). by apply Hkeys.
Qed.

(** What [getSlice_new] adds to a world whose cursor was written. *)
Lemma cursor_written_request o endpoint newArgs w w' r w'' :
  cursor_written o w w' →
  getSlice_new userConfig oauth oauthAppOnly endpoint newArgs w' = (r, w'') →
  slices w'' = slices w
  ∧ (∀ ep, is_Some (endpoints w !! ep) → endpoints w'' !! ep = endpoints w !! ep)
  ∧ (∃ l, r = Request l ∧ endpoints w !! l = None
          ∧ is_Some (endpoints w'' !! l))
  ∧ (∀ o', o' ≠ o → objects w'' !! o' = objects w !! o')
  ∧ (∀ k, k ∉ cursor_keys → (objects w'' !!! o) !! k = (objects w !!! o) !! k).
Proof.
  intros (Hs & He & Hev & Ho & Hkeys) Hreq.
  destruct (getSlice_new_request userConfig oauth oauthAppOnly endpoint newArgs w')
    as (l & e' & Heq & Hnew & _).
  rewrite Heq in Hreq. injection Hreq as <- <-. rewrite He in Hnew.
  cbn [slices endpoints objects set_endpoints]. split_and!; try done.
  - intros ep [e Hep]. rewrite He, lookup_insert_ne; [done|]. congruence.
  - exists l. by rewrite lookup_insert_eq.
Qed.

(** [start()] always issues a request; [next()] and [previous()] do on a
    slice that has a non-stickied child. *)
Lemma navigation_issues env c sl st :
  c ≠ Requery →
  let this := slices (world st) !!! sl in
  c = Start
  ∨ (slice.children this ≠ [] ∧ Forall not_stickied (slice.children this)) →
  ∃ l, (invoke env c sl st).1 = Request l.
Proof.
  intros Hc this Hcan. destruct c; [| | |done]; cbn [call].
  - destruct Hcan as [|[Hne Hall]]; [done|].
    destruct (last_child_named this Hne Hall) as (cN & name & _ & _ & Hname).
    unfold slice_next. fold this. rewrite Hname.
    set (newArgs := args _). set (w3 := set_prop newArgs "count" _ _).
    destruct (getSlice_new_request userConfig oauth oauthAppOnly
                (slice.endpoint this) newArgs w3) as (l & e' & -> & _).
    by exists l.
  - destruct Hcan as [|[Hne Hall]]; [done|].
    destruct (first_child_named this Hne Hall) as (c1 & name & _ & _ & Hname).
    unfold slice_previous. fold this. rewrite Hname.
    set (newArgs := args _). set (w3 := set_prop newArgs "count" _ _).
    destruct (getSlice_new_request userConfig oauth oauthAppOnly
                (slice.endpoint this) newArgs w3) as (l & e' & -> & _).
    by exists l.
  - unfold slice_start. fold this.
    set (newArgs := args _). set (w3 := set_prop newArgs "count" _ _).
    destruct (getSlice_new_request userConfig oauth oauthAppOnly
                (slice.endpoint this) newArgs w3) as (l & e' & -> & _).
    by exists l.
Qed.

(** What the three closures change, whether they issue a request or throw. *)
Lemma navigation_writes env c sl st :
  c ≠ Requery →
  let endpoint := slice.endpoint (slices (world st) !!! sl) in
  let newArgs := args (endpoints (world st) !!! endpoint) in
  let st' := (invoke env c sl st).2 in
  slices (world st') = slices (world st)
  ∧ (∀ ep, is_Some (endpoints (world st) !! ep) →
       endpoints (world st') !! ep = endpoints (world st) !! ep)
  ∧ (∀ l, (invoke env c sl st).1 = Request l →
       endpoints (world st) !! l = None ∧ is_Some (endpoints (world st') !! l))
  ∧ (∀ o, o ≠ newArgs → objects (world st') !! o = objects (world st) !! o)
  ∧ (∀ k, k ∉ cursor_keys →
       (objects (world st') !!! newArgs) !! k
       = (objects (world st) !!! newArgs) !! k).
Proof.
  intros Hc endpoint newArgs st'.
  subst st'. destruct c; [| | |done]; cbn [call].
  - unfold slice_next. fold endpoint. fold newArgs.
    destruct (last_child _ ≫= child_name) as [e|name]; cbn [fst snd world].
    + destruct (cursor_written_set_prop newArgs "before" VNull _ _
                  ltac:(set_solver) (cursor_written_refl newArgs (world st)))
        as (? & He & ? & ? & ?).
      split_and!; try done; by intros ep _; rewrite He.
    + destruct (getSlice_new _ _ _ _ _ _) as [r w''] eqn:Hreq.
      cbn [fst snd world].
      eapply cursor_written_request in Hreq as (? & ? & (l & -> & ? & ?) & ? & ?).
      * split_and!; try done. by intros ? [= <-].
      * repeat (apply cursor_written_set_prop; [set_solver|]).
        apply cursor_written_refl.
  - unfold slice_previous. fold endpoint. fold newArgs.
    destruct (first_child _ ≫= child_name) as [e|name]; cbn [fst snd world].
    + split_and!; try done.
    + destruct (getSlice_new _ _ _ _ _ _) as [r w''] eqn:Hreq.
      cbn [fst snd world].
      eapply cursor_written_request in Hreq as (? & ? & (l & -> & ? & ?) & ? & ?).
      * split_and!; try done. by intros ? [= <-].
      * repeat (apply cursor_written_set_prop; [set_solver|]).
        apply cursor_written_refl.
  - unfold slice_start. fold endpoint. fold newArgs.
    destruct (getSlice_new _ _ _ _ _ _) as [r w''] eqn:Hreq.
    cbn [fst snd world].
    eapply cursor_written_request in Hreq as (? & ? & (l & -> & ? & ?) & ? & ?).
    * split_and!; try done. by intros ? [= <-].
    * repeat (apply cursor_written_set_prop; [set_solver|]).
      apply cursor_written_refl.
Qed.

(** C9, amended. [next()], [previous()] and [start()] leave every slice and
    every endpoint of the store as they were, the endpoint of the slice
    included. [start()] always, and [next()] and [previous()] on a slice with
    a non-stickied child, issue a request, and a request they issue is for a
    new endpoint. Of the mappings in the store they touch only the arguments
    of the slice's endpoint, and of these only [before], [after] and [count].
    [requery()] afterwards issues the endpoint of the slice itself and
    changes nothing. *)
Theorem navigation_frame env c sl st :
  c ≠ Requery →
  let this := slices (world st) !!! sl in
  let endpoint := slice.endpoint this in
  let newArgs := args (endpoints (world st) !!! endpoint) in
  let st' := (invoke env c sl st).2 in
  slices (world st') = slices (world st)
  ∧ (∀ ep, is_Some (endpoints (world st) !! ep) →
       endpoints (world st') !! ep = endpoints (world st) !! ep)
  ∧ (c = Start
     ∨ (slice.children this ≠ [] ∧ Forall not_stickied (slice.children this)) →
     ∃ l, (invoke env c sl st).1 = Request l)
  ∧ (∀ l, (invoke env c sl st).1 = Request l →
       endpoints (world st) !! l = None ∧ is_Some (endpoints (world st') !! l))
  ∧ (∀ o, o ≠ newArgs → objects (world st') !! o = objects (world st) !! o)
  ∧ (∀ k, k ∉ cursor_keys →
       (objects (world st') !!! newArgs) !! k
       = (objects (world st) !!! newArgs) !! k)
  ∧ invoke env Requery sl st' = (Request endpoint, st').
Proof.
  intros Hc this endpoint newArgs st'.
  destruct (navigation_writes env c sl st Hc) as (Hs & ? & ? & ? & ?).
  split_and!; try done.
  - by apply navigation_issues.
  - cbn [call]. unfold slice_requery. subst st'. by rewrite Hs.
Qed.

End Navigation.

(** ** Worked examples *)

Lemma scope_granted_no_header (response : Response) :
  _headers response !! "www-authenticate" = None → scope_granted response.
Proof. intros Hnone s Hs. congruence. Qed.

(** C10. There is a 401 response, handled while not operating app-only and
    without [bypassAuth], with a user provider that can refresh but holds no
    refresh token and a grant type other than [script], for which the handler
    calls no provider and throws at [reauthPromise.then]: it gives neither an
    endpoint to retry nor a rejection. *)
Theorem reauth_not_total :
  ∃ (userConfig : UserConfig) (oauth oauthAppOnly : OAuth fixture.Tokens)
    (response : Response) (endpoint : loc)
    (w : World fixture.Tokens fixture.Tokens),
    _status response = 401
    ∧ isApplicationOnly oauth w = false
    ∧ bypassAuth (contextOptions (endpoints w !!! endpoint)) = false
    ∧ canRefreshAccessToken oauth (oauth_state w) = true
    ∧ hasRefreshToken oauth (oauth_state w) = false
    ∧ isOAuthType userConfig "script" = false
    ∧ responseErrorHandler userConfig oauth oauthAppOnly response endpoint w
      = (Thrown TypeError, w).
Proof.
  exists (fixture.config "web"), (fixture.provider true), (fixture.provider true),
    fixture.expired, 1%positive, (fixture.world_of (fixture.user true false)).
  repeat (split; [reflexivity|]).
  apply reauthPromise_undefined; try reflexivity.
  by apply scope_granted_no_header.
Qed.

(** A 401 that carries the scope header, with a provider able to refresh. *)
Lemma insufficient_scope_rejects_witness :
  let w := fixture.world_of (fixture.user true true) in
  _headers fixture.scope_denied !! "www-authenticate"
    = Some "Bearer error=insufficient_scope"
  ∧ contains "Bearer error=insufficient_scope" "insufficient_scope"
  ∧ responseErrorHandler (fixture.config "web") (fixture.provider true)
      (fixture.provider true) fixture.scope_denied 1%positive w
    = (Rejected (ResponseError InsufficientScope fixture.scope_denied 1%positive),
       w).
Proof.
  intros w.
  assert (_headers fixture.scope_denied !! "www-authenticate"
          = Some "Bearer error=insufficient_scope") as Hheader by reflexivity.
  assert (contains "Bearer error=insufficient_scope" "insufficient_scope")
    as Hfound by (exists "Bearer error=", ""; reflexivity).
  split; [exact Hheader|]. split; [exact Hfound|].
  exact (insufficient_scope_rejects _ _ _ _ _ _ _ Hheader Hfound).
Defined.

(** A 503 without the scope header. *)
Lemma server_error_retries_witness :
  let w := fixture.world_of (fixture.user true true) in
  scope_granted fixture.busy
  ∧ first_char (Number_toString (_status fixture.busy)) = "5"
  ∧ ∃ l e' w',
      responseErrorHandler (fixture.config "web") (fixture.provider true)
        (fixture.provider true) fixture.busy 1%positive w = (Fulfilled l, w')
      ∧ endpoints w !! l = None
      ∧ endpoints w' = <[l := e']> (endpoints w)
      ∧ same_call
          (buildHeaders (fixture.config "web") (fixture.provider true)
             (fixture.provider true)
             (Some (contextOptions (endpoints w !!! 1%positive))) w)
          (endpoints w !!! 1%positive) e'
      ∧ events w' = events w
      ∧ oauth_state w' = oauth_state w
      ∧ appOnly_state w' = appOnly_state w
      ∧ objects w' = objects w.
Proof.
  intros w.
  assert (scope_granted fixture.busy) as Hscope
    by (apply scope_granted_no_header; reflexivity).
  assert (first_char (Number_toString (_status fixture.busy)) = "5") as H5
    by (vm_compute; reflexivity).
  split; [exact Hscope|]. split; [exact H5|].
  exact (server_error_retries _ _ _ _ _ _ Hscope H5).
Defined.

(** A plain 401, with a provider that holds a refresh token and is granted
    the refresh. *)
Lemma refresh_then_retry_witness :
  let w := fixture.world_of (fixture.user true true) in
  let oauth := fixture.provider true in
  let handler := responseErrorHandler (fixture.config "web") oauth oauth in
  scope_granted fixture.expired
  ∧ _status fixture.expired = 401
  ∧ bypassAuth (contextOptions (endpoints w !!! 1%positive)) = false
  ∧ canRefreshAccessToken oauth (oauth_state w) = true
  ∧ hasRefreshToken oauth (oauth_state w) = true
  ∧ events (handler fixture.expired 1%positive w).2 = events w ++ [CallRefresh]
  ∧ ∀ s', refresh oauth (oauth_state w) = Granted s' →
    ∃ l e' w',
      handler fixture.expired 1%positive w = (Fulfilled l, w')
      ∧ oauth_state w' = s'
      ∧ appOnly_state w' = appOnly_state w
      ∧ endpoints w !! l = None ∧ l ≠ 1%positive
      ∧ let h := buildHeaders (fixture.config "web") oauth oauth
                   (Some (contextOptions (endpoints w !!! 1%positive))) w' in
        endpoints w'
        = <[l := e']> (<[1%positive := setHeaders h (endpoints w !!! 1%positive)]>
                         (endpoints w))
        ∧ same_call h (endpoints w !!! 1%positive) e'.
Proof.
  intros w oauth handler.
  assert (scope_granted fixture.expired) as Hscope
    by (apply scope_granted_no_header; reflexivity).
  split; [exact Hscope|]. do 4 (split; [reflexivity|]).
  exact (refresh_then_retry (fixture.config "web") oauth oauth fixture.expired
           1%positive w Hscope eq_refl eq_refl eq_refl eq_refl).
Defined.

(** With a provider that grants the refresh, the retry carries the renewed
    token. *)
Lemma expired_then_renewed :
  let w := fixture.world_of (fixture.user true true) in
  let r := responseErrorHandler (fixture.config "web") (fixture.provider true)
             (fixture.provider true) fixture.expired 1%positive w in
  r.1 = Fulfilled 2%positive
  ∧ events r.2 = [CallRefresh]
  ∧ headers (endpoints r.2 !!! 2%positive)
    = {["User-Agent" := "snoocore-test"; "Authorization" := "bearer renewed"]}
  ∧ headers (endpoints r.2 !!! 1%positive)
    = {["User-Agent" := "snoocore-test"; "Authorization" := "bearer renewed"]}
  ∧ args (endpoints r.2 !!! 2%positive) = args (endpoints w !!! 1%positive).
Proof. repeat split; vm_compute; reflexivity. Qed.

(** C1 as stated fails twice over. A 401 that also carries the scope header
    is rejected before any refresh; and when the provider refuses the
    refresh, the handler is rejected with the provider's reason. In both
    cases the orchestrator is not app-only, [bypassAuth] is not set, and the
    user provider can refresh and holds a refresh token. *)
Lemma refresh_claim_fails :
  let w := fixture.world_of (fixture.user true true) in
  let config := fixture.config "web" in
  let granting := fixture.provider true in
  let refusing := fixture.provider false in
  (_status fixture.scope_denied = 401
   ∧ isApplicationOnly granting w = false
   ∧ bypassAuth (contextOptions (endpoints w !!! 1%positive)) = false
   ∧ canRefreshAccessToken granting (oauth_state w) = true
   ∧ hasRefreshToken granting (oauth_state w) = true
   ∧ responseErrorHandler config granting granting
       fixture.scope_denied 1%positive w
     = (Rejected (ResponseError InsufficientScope fixture.scope_denied
                    1%positive), w)
   ∧ events w = [])
  ∧ (_status fixture.expired = 401
     ∧ isApplicationOnly refusing w = false
     ∧ bypassAuth (contextOptions (endpoints w !!! 1%positive)) = false
     ∧ canRefreshAccessToken refusing (oauth_state w) = true
     ∧ hasRefreshToken refusing (oauth_state w) = true
     ∧ responseErrorHandler config refusing refusing fixture.expired 1%positive w
       = (Rejected (ReauthError "invalid_grant"), log CallRefresh w))
  ∧ (∀ l w',
       responseErrorHandler config granting granting
         fixture.scope_denied 1%positive w ≠ (Fulfilled l, w')
       ∧ responseErrorHandler config refusing refusing
           fixture.expired 1%positive w ≠ (Fulfilled l, w')).
Proof.
  intros w config granting refusing. split_and!; try reflexivity.
  intros l w'. split; intros [=].
Qed.

(** A plain 401, with a provider that has a token and cannot refresh it. *)
Lemma expired_token_unrecoverable_witness :
  let w := fixture.world_of (fixture.user false false) in
  let oauth := fixture.provider true in
  scope_granted fixture.expired
  ∧ _status fixture.expired = 401
  ∧ isApplicationOnly oauth w = false
  ∧ bypassAuth (contextOptions (endpoints w !!! 1%positive)) = false
  ∧ canRefreshAccessToken oauth (oauth_state w) = false
  ∧ responseErrorHandler (fixture.config "web") oauth oauth
      fixture.expired 1%positive w
    = (Rejected (ResponseError TokenExpiredUnrecoverable fixture.expired
                   1%positive),
       log (Emit "access_token_expired") w).
Proof.
  intros w oauth.
  assert (scope_granted fixture.expired) as Hscope
    by (apply scope_granted_no_header; reflexivity).
  split; [exact Hscope|]. repeat (split; [reflexivity|]).
  exact (expired_token_unrecoverable (fixture.config "web") oauth oauth
           fixture.expired 1%positive w Hscope eq_refl eq_refl eq_refl eq_refl).
Defined.

(** C4 as stated fails on a 401 that also carries the scope header: the
    handler rejects with InsufficientScope and emits nothing, although the
    user provider cannot refresh. *)
Lemma expired_claim_fails :
  let w := fixture.world_of (fixture.user false false) in
  let oauth := fixture.provider true in
  (_status fixture.scope_denied = 401
   ∧ isApplicationOnly oauth w = false
   ∧ bypassAuth (contextOptions (endpoints w !!! 1%positive)) = false
   ∧ canRefreshAccessToken oauth (oauth_state w) = false)
  ∧ responseErrorHandler (fixture.config "web") oauth oauth
      fixture.scope_denied 1%positive w
    = (Rejected (ResponseError InsufficientScope fixture.scope_denied 1%positive),
       w)
  ∧ events w = []
  ∧ responseErrorHandler (fixture.config "web") oauth oauth
      fixture.scope_denied 1%positive w
    ≠ (Rejected (ResponseError TokenExpiredUnrecoverable fixture.scope_denied
                   1%positive),
       log (Emit "access_token_expired") w).
Proof. intros w oauth. split_and!; try reflexivity. intros [=]. Qed.


(** The page [A, B (stickied), C] gives [children = [A, C]],
    [stickied = [B]] and [empty = false]. *)
Lemma first_page_slice :
  let s := slices (world fixture.browsing) !!! 1%positive in
  slice.children s = [fixture.post "t3_a" false; fixture.post "t3_c" false]
  ∧ slice.stickied s = [fixture.post "t3_b" true]
  ∧ slice.empty s = false
  ∧ slice.after s = VStr "t3_c" ∧ slice.before s = VNull
  ∧ slice.count s = VNum 0.
Proof. repeat split; vm_compute; reflexivity. Qed.

Lemma post_not_stickied (name : string) :
  not_stickied (fixture.post name false).
Proof. by exists (VBool false). Qed.

(** [next()] on the first page, whose non-stickied children are [A, C]. *)
Lemma next_request_witness :
  let w0 := fixture.world_of (fixture.user true true) in
  let env := fixture.listing.1 in
  let st := fixture.browsing in
  let s := slices (world st) !!! 1%positive in
  let cN := fixture.post "t3_c" false in
  getListing 1%positive w0 = (env, fixture.listing.2)
  ∧ slices (world st) !! 1%positive = Some s
  ∧ Forall not_stickied (slice.children s)
  ∧ slice.children s = [fixture.post "t3_a" false] ++ [cN]
  ∧ count st = VNum 0
  ∧ (let given := prop (args_of 1%positive w0) "limit" in
     if truthy given then given else VNum 25) = VNum 2
  ∧ safe_integer 0 = true ∧ safe_integer 2 = true
  ∧ safe_integer (0 + 2) = true
  ∧ ∃ data name l st',
      get_prop cN "data" = Some data
      ∧ get_prop data "name" = Some name
      ∧ slice_next (fixture.config "web") (fixture.provider true)
          (fixture.provider true) fixture.coerce env 1%positive st
        = (Request l, st')
      ∧ endpoints (world st) !! l = None
      ∧ prop (args_of l (world st')) "after" = name
      ∧ prop (args_of l (world st')) "before" = VNull
      ∧ prop (args_of l (world st')) "count" = VNum (0 + 2)
      ∧ count st' = VNum (0 + 2).
Proof.
  intros w0 env st s cN.
  assert (getListing 1%positive w0 = (env, fixture.listing.2)) as Hlisting
    by reflexivity.
  assert (slices (world st) !! 1%positive = Some s) as Hslice
    by (vm_compute; reflexivity).
  assert (slice.children s = [fixture.post "t3_a" false] ++ [cN]) as Hlast
    by (vm_compute; reflexivity).
  assert (Forall not_stickied (slice.children s)) as Hkids.
  { rewrite Hlast. repeat constructor; apply post_not_stickied. }
  assert ((let given := prop (args_of 1%positive w0) "limit" in
           if truthy given then given else VNum 25) = VNum 2) as Hlimit
    by (vm_compute; reflexivity).
  split; [exact Hlisting|]. split; [exact Hslice|]. split; [exact Hkids|].
  split; [exact Hlast|]. split; [reflexivity|]. split; [exact Hlimit|].
  do 3 (split; [reflexivity|]).
  exact (next_request (fixture.config "web") (fixture.provider true)
           (fixture.provider true) fixture.coerce
           _ _ _ _ _ _ _ _ _ 0 2 Hlisting Hslice Hkids Hlast eq_refl Hlimit
           eq_refl eq_refl eq_refl).
Defined.

(** With [limit=2], [next()] on the first page asks for what follows [C],
    counting from 2. *)
Lemma first_page_next :
  let r := slice_next (fixture.config "web") (fixture.provider true)
             (fixture.provider true) fixture.coerce fixture.listing.1
             1%positive fixture.browsing in
  r.1 = Request 2%positive
  ∧ args_of 2%positive (world r.2)
    = {["limit" := VNum 2; "before" := VNull; "after" := VStr "t3_c";
        "count" := VNum 2]}
  ∧ count r.2 = VNum 2.
Proof. repeat split; vm_compute; reflexivity. Qed.

(** [next()] on the first page, then [requery()]. *)
Lemma navigation_frame_witness :
  let env := fixture.listing.1 in
  let st := fixture.browsing in
  let invoke := call (fixture.config "web") (fixture.provider true)
                  (fixture.provider true) fixture.coerce fixture.coerce in
  let this := slices (world st) !!! 1%positive in
  let endpoint := slice.endpoint this in
  let newArgs := args (endpoints (world st) !!! endpoint) in
  let st' := (invoke env Next 1%positive st).2 in
  Next ≠ Requery
  ∧ slices (world st') = slices (world st)
  ∧ (∀ ep, is_Some (endpoints (world st) !! ep) →
       endpoints (world st') !! ep = endpoints (world st) !! ep)
  ∧ (Next = Start
     ∨ (slice.children this ≠ [] ∧ Forall not_stickied (slice.children this)) →
     ∃ l, (invoke env Next 1%positive st).1 = Request l)
  ∧ (∀ l, (invoke env Next 1%positive st).1 = Request l →
       endpoints (world st) !! l = None ∧ is_Some (endpoints (world st') !! l))
  ∧ (∀ o, o ≠ newArgs → objects (world st') !! o = objects (world st) !! o)
  ∧ (∀ k, k ∉ cursor_keys →
       (objects (world st') !!! newArgs) !! k
       = (objects (world st) !!! newArgs) !! k)
  ∧ invoke env Requery 1%positive st' = (Request endpoint, st').
Proof.
  intros env st invoke this endpoint newArgs st'.
  assert (Next ≠ Requery) as Hc by discriminate.
  split; [exact Hc|].
  exact (navigation_frame (fixture.config "web") (fixture.provider true)
           (fixture.provider true) fixture.coerce fixture.coerce
           env Next 1%positive st Hc).
Defined.

(** C9 as stated fails. After [next()] on the first page, the arguments of
    the endpoint that produced that page are no longer [limit=2] alone: they
    hold the cursor of the second page, and [requery()] issues that very
    endpoint. And on a page without children [next()] throws: it builds no
    endpoint, yet has already cleared [before] and advanced the count. *)
Lemma navigation_claim_fails :
  let env := fixture.listing.1 in
  let invoke := call (fixture.config "web") (fixture.provider true)
                  (fixture.provider true) fixture.coerce fixture.coerce in
  let st := fixture.browsing in
  let st' := (invoke env Next 1%positive st).2 in
  let end' := invoke env Next 1%positive fixture.at_the_end in
  (slice.endpoint (slices (world st) !!! 1%positive) = 1%positive
   ∧ args_of 1%positive (world st) = {["limit" := VNum 2]}
   ∧ args_of 1%positive (world st')
     = {["limit" := VNum 2; "before" := VNull; "after" := VStr "t3_c";
         "count" := VNum 2]}
   ∧ args_of 1%positive (world st') ≠ args_of 1%positive (world st)
   ∧ (invoke env Requery 1%positive st).1 = Request 1%positive
   ∧ (invoke env Requery 1%positive st').1 = Request 1%positive)
  ∧ (end'.1 = Raise TypeError
     ∧ endpoints (world end'.2) = endpoints (world fixture.at_the_end)
     ∧ args_of 1%positive (world end'.2)
       = {["limit" := VNum 2; "before" := VNull]}
     ∧ count end'.2 = VNum 2).
Proof.
  intros env invoke st st' end'.
  assert (args_of 1%positive (world st) = {["limit" := VNum 2]}) as Hbefore
    by (vm_compute; reflexivity).
  assert (args_of 1%positive (world st')
          = {["limit" := VNum 2; "before" := VNull; "after" := VStr "t3_c";
              "count" := VNum 2]}) as Hafter
    by (vm_compute; reflexivity).
  split; [|repeat split; vm_compute; reflexivity].
  split; [vm_compute; reflexivity|]. split; [exact Hbefore|].
  split; [exact Hafter|]. split; [|split; vm_compute; reflexivity].
  rewrite Hbefore, Hafter. intros Heq.
  apply (f_equal (λ m : gmap string Value, m !! "after")) in Heq.
  vm_compute in Heq. discriminate.
Qed.

(** A listing asked to begin after [t3_x]: [next()] overwrites that cursor
    in the arguments, and [start()] still goes back to it. *)
Lemma start_after_next :
  let listing := getListing 1%positive (fixture.world_from "t3_x") in
  let invoke := call (fixture.config "web") (fixture.provider true)
                  (fixture.provider true) fixture.coerce fixture.coerce in
  let st := run (fixture.config "web") (fixture.provider true)
              (fixture.provider true) fixture.coerce fixture.coerce listing.1
              [Answer 1%positive fixture.page; Invoke Next 1%positive;
               Answer 2%positive fixture.page]
              listing.2 in
  let r := invoke listing.1 Start 2%positive st in
  prop (args_of 1%positive (world st)) "after" = VStr "t3_c"
  ∧ count st = VNum 2
  ∧ r.1 = Request 3%positive
  ∧ args_of 3%positive (world r.2)
    = {["limit" := VNum 2; "before" := VNull; "after" := VStr "t3_x";
        "count" := VNum 0]}
  ∧ count r.2 = VNum 0.
Proof. repeat split; vm_compute; reflexivity. Qed.


(** * More of the code *)

(** ** Every path of the error handler *)

Lemma first_char_below_500 (status : Z) :
  100 ≤ status ≤ 499 → first_char (Number_toString status) ≠ "5".
Proof.
  intros Hs.
  assert (forallb (λ k, negb (String.eqb
            (first_char (Number_toString (100 + Z.of_nat k))) "5"))
            (seq 0 400) = true) as Hall by (vm_compute; reflexivity).
  rewrite forallb_forall in Hall.
  specialize (Hall (Z.to_nat (status - 100))).
  replace (100 + Z.of_nat (Z.to_nat (status - 100))) with status in Hall by lia.
  apply String.eqb_neq, negb_true_iff, Hall, in_seq. lia.
Qed.

Section HandlerPaths.
Context {U A : Type}.
Variable userConfig : UserConfig.
Variable oauth : OAuth U.
Variable oauthAppOnly : OAuth A.
Implicit Type w : World U A.

Local Abbreviation handler := (responseErrorHandler userConfig oauth oauthAppOnly).
Local Abbreviation headers_for := (buildHeaders userConfig oauth oauthAppOnly).

(** Splits the handler into its paths, naming the endpoint it builds. *)
Ltac handler_paths :=
  unfold responseErrorHandler, reauthPromise_then, reauthenticated;
  repeat match goal with
    | |- context [if ?b then _ else _] => destruct b eqn:?
    | |- context [match ?o with Granted _ => _ | Refused _ _ => _ end] =>
        destruct o eqn:?
    | |- context [modifiedEndpoint ?c ?u ?a ?e ?w] =>
        let Hnew := fresh "Hnew" in
        let Hsame := fresh "Hsame" in
        destruct (modifiedEndpoint_new c u a e w) as (? & ? & -> & Hnew & Hsame)
    end.

(** X1. A 404 without the scope header is rejected with the NotFound error
    carrying the response and the endpoint; the world is left as it was, so
    nothing is retried and no provider is called. *)
Theorem not_found_rejects response endpoint w :
  scope_granted response →
  _status response = 404 →
  handler response endpoint w
  = (Rejected (ResponseError NotFound response endpoint), w).
Proof.
  intros Hscope Hst. unfold responseErrorHandler.
  by rewrite (insufficient_scope_absent _ Hscope), Hst.
Qed.

(** X2. Any status from 100 to 499 other than 401 and 404, without the scope
    header, is rejected with the Unrecoverable error; the world is left as it
    was. *)
Theorem client_error_unrecoverable response endpoint w :
  scope_granted response →
  100 ≤ _status response ≤ 499 →
  _status response ≠ 401 → _status response ≠ 404 →
  handler response endpoint w
  = (Rejected (ResponseError Unrecoverable response endpoint), w).
Proof.
  intros Hscope Hrange H401 H404. unfold responseErrorHandler.
  rewrite (insufficient_scope_absent _ Hscope).
  apply Z.eqb_neq in H401 as ->. apply Z.eqb_neq in H404 as ->.
  by apply first_char_below_500, String.eqb_neq in Hrange as ->.
Qed.

(** X3. Every status from 500 to 599 without the scope header fulfils the
    handler with a new endpoint, without calling a provider or emitting
    anything. *)
Theorem server_error_range_retries response endpoint w :
  scope_granted response →
  500 ≤ _status response ≤ 599 →
  ∃ l w',
    handler response endpoint w = (Fulfilled l, w')
    ∧ endpoints w !! l = None
    ∧ is_Some (endpoints w' !! l)
    ∧ events w' = events w.
Proof.
  intros Hscope Hrange. unfold responseErrorHandler.
  rewrite (insufficient_scope_absent _ Hscope).
  pose proof (first_char_5xx _ Hrange) as H5.
  destruct (status_5_not_40x _ H5) as [H404 H401].
  apply Z.eqb_neq in H404 as ->. apply Z.eqb_neq in H401 as ->.
  rewrite H5. change (String.eqb "5" "5") with true. cbv iota.
  destruct (modifiedEndpoint_new userConfig oauth oauthAppOnly endpoint w)
    as (l & e' & -> & Hnew & _).
  exists l. eexists. split; [done|]. cbn. by rewrite lookup_insert_eq.
Qed.


Lemma endpoints_set_endpoints m w : endpoints (set_endpoints m w) = m.
Proof. reflexivity. Qed.

(** The [Authorization] header is the app-only one when auth is bypassed or
    the user provider has neither a token nor a way to get one. *)
Lemma buildHeaders_authorization o w :
  headers_for o w !! "Authorization"
  = Some (if bypassAuth (default no_options o) || isApplicationOnly oauth w
          then getAuthorizationHeader oauthAppOnly (appOnly_state w)
          else getAuthorizationHeader oauth (oauth_state w)).
Proof.
  unfold buildHeaders.
  destruct (bypassAuth _ || isApplicationOnly oauth w);
    by rewrite lookup_insert_eq.
Qed.

(** X4. [buildHeaders] always sets [Authorization], sets [User-Agent] to the
    configured agent exactly when running under Node, and sets nothing
    else. *)
Theorem buildHeaders_keys o w :
  let headers := buildHeaders userConfig oauth oauthAppOnly o w in
  is_Some (headers !! "Authorization")
  ∧ headers !! "User-Agent"
    = (if isNode userConfig then Some (userAgent userConfig) else None)
  ∧ ∀ k, k ≠ "Authorization" → k ≠ "User-Agent" → headers !! k = None.
Proof.
  intros headers. subst headers.
  split; [rewrite buildHeaders_authorization; eauto|].
  unfold buildHeaders. split.
  - destruct (bypassAuth _ || isApplicationOnly oauth w), (isNode userConfig);
      by simplify_map_eq.
  - intros k Ha Hu.
    destruct (bypassAuth _ || isApplicationOnly oauth w), (isNode userConfig);
      by simplify_map_eq.
Qed.

(** X5. On a 401 without the scope header, when operating app-only or with
    [bypassAuth]: [applicationOnlyAuth] is called once and the user provider
    is left alone; when it succeeds, the retried endpoint and the failing one
    both get the [Authorization] header of the app-only provider as it is
    after that call. *)
Theorem app_only_reauth response endpoint w :
  scope_granted response →
  _status response = 401 →
  isApplicationOnly oauth w
  || bypassAuth (contextOptions (endpoints w !!! endpoint)) = true →
  events (handler response endpoint w).2
  = events w ++ [CallApplicationOnlyAuth]
  ∧ oauth_state (handler response endpoint w).2 = oauth_state w
  ∧ ∀ s', applicationOnlyAuth oauthAppOnly (appOnly_state w) = Granted s' →
    ∃ l e' w',
      handler response endpoint w = (Fulfilled l, w')
      ∧ appOnly_state w' = s'
      ∧ l ≠ endpoint
      ∧ endpoints w' !! l = Some e'
      ∧ headers e' !! "Authorization"
        = Some (getAuthorizationHeader oauthAppOnly s')
      ∧ headers (endpoints w' !!! endpoint) !! "Authorization"
        = Some (getAuthorizationHeader oauthAppOnly s').
Proof.
  intros Hscope Hst Happ. unfold responseErrorHandler.
  rewrite (insufficient_scope_absent _ Hscope), Hst, Happ.
  cbn -[modifiedEndpoint buildHeaders reauthPromise_then].
  unfold reauthPromise_then, reauthenticated.
  destruct (applicationOnlyAuth oauthAppOnly (appOnly_state w))
    as [s|s reason]; [|by split_and!].
  set (e := endpoints w !!! endpoint).
  set (w1 := set_appOnly_state s (log CallApplicationOnlyAuth w)).
  set (h := buildHeaders _ _ _ _ w1).
  set (w2 := set_endpoints _ w1).
  destruct (modifiedEndpoint_new userConfig oauth oauthAppOnly endpoint w2)
    as (l & e' & -> & Hnew & Hsame).
  assert (endpoints w2 !!! endpoint = setHeaders h e) as Hread
    by (subst w2; simpl; apply lookup_total_insert_eq).
  assert (l ≠ endpoint) as Hne.
  { intros ->. subst w2. simpl in Hnew. by rewrite lookup_insert_eq in Hnew. }
  assert (h !! "Authorization"
          = Some (getAuthorizationHeader oauthAppOnly s)) as Hh.
  { assert (bypassAuth (contextOptions (endpoints w !!! endpoint))
            || isApplicationOnly oauth w1 = true)
      as Happ' by (rewrite orb_comm; exact Happ).
    subst h. rewrite buildHeaders_authorization. simpl default.
    by rewrite Happ'. }
  split; [done|]. split; [done|]. intros s' [= <-].
  exists l, e', (set_endpoints (<[l := e']> (endpoints w2)) w2).
  destruct Hsame as (_ & _ & _ & _ & _ & _ & Hh').
  split_and!; try done.
  - rewrite endpoints_set_endpoints. apply lookup_insert_eq.
  - rewrite Hh', Hread. exact Hh.
  - rewrite endpoints_set_endpoints, lookup_total_insert_ne, Hread by done.
    exact Hh.
Qed.

(** X6. On a 401 without the scope header and without [bypassAuth], when the
    user provider can refresh and the refresh (with a refresh token) or the
    full auth (type [script], without one) succeeds and leaves the provider
    with a token or a way to get one: the retried endpoint and the failing
    one both get the user provider's new [Authorization] header. *)
Theorem user_reauth_header response endpoint w s' :
  scope_granted response →
  _status response = 401 →
  bypassAuth (contextOptions (endpoints w !!! endpoint)) = false →
  canRefreshAccessToken oauth (oauth_state w) = true →
  (hasRefreshToken oauth (oauth_state w) = true
   ∧ refresh oauth (oauth_state w) = Granted s')
  ∨ (hasRefreshToken oauth (oauth_state w) = false
     ∧ isOAuthType userConfig "script" = true
     ∧ auth oauth (oauth_state w) = Granted s') →
  hasAccessToken oauth s' || canRefreshAccessToken oauth s' = true →
  ∃ l e' w',
    handler response endpoint w = (Fulfilled l, w')
    ∧ oauth_state w' = s'
    ∧ l ≠ endpoint
    ∧ endpoints w' !! l = Some e'
    ∧ headers e' !! "Authorization" = Some (getAuthorizationHeader oauth s')
    ∧ headers (endpoints w' !!! endpoint) !! "Authorization"
      = Some (getAuthorizationHeader oauth s').
Proof.
  intros Hscope Hst Hby Hcan Hpath Huser. unfold responseErrorHandler.
  assert (isApplicationOnly oauth w = false) as Happ
    by (unfold isApplicationOnly; rewrite Hcan; apply andb_false_r).
  rewrite (insufficient_scope_absent _ Hscope), Hst, Happ, Hby, Hcan.
  cbn -[modifiedEndpoint buildHeaders reauthPromise_then].
  assert (∀ ev,
    ∃ l e' w',
      reauthPromise_then userConfig oauth oauthAppOnly ev (Granted s')
        set_oauth_state endpoint w = (Fulfilled l, w')
      ∧ oauth_state w' = s' ∧ l ≠ endpoint ∧ endpoints w' !! l = Some e'
      ∧ headers e' !! "Authorization" = Some (getAuthorizationHeader oauth s')
      ∧ headers (endpoints w' !!! endpoint) !! "Authorization"
        = Some (getAuthorizationHeader oauth s')) as Hthen.
  { intros ev. unfold reauthPromise_then, reauthenticated.
    set (e := endpoints w !!! endpoint).
    set (w1 := set_oauth_state s' (log ev w)).
    set (h := buildHeaders _ _ _ _ w1).
    set (w2 := set_endpoints _ w1).
    destruct (modifiedEndpoint_new userConfig oauth oauthAppOnly endpoint w2)
      as (l & e' & -> & Hnew & Hsame).
    assert (endpoints w2 !!! endpoint = setHeaders h e) as Hread
      by (subst w2; simpl; apply lookup_total_insert_eq).
    assert (l ≠ endpoint) as Hne.
    { intros ->. subst w2. simpl in Hnew. by rewrite lookup_insert_eq in Hnew. }
    assert (h !! "Authorization" = Some (getAuthorizationHeader oauth s')) as Hh.
    { subst h. rewrite buildHeaders_authorization. simpl default.
      rewrite Hby. unfold isApplicationOnly. simpl.
      apply orb_true_iff in Huser as [-> | ->]; simpl; [done|].
      by rewrite andb_false_r. }
    exists l, e', (set_endpoints (<[l := e']> (endpoints w2)) w2).
    destruct Hsame as (_ & _ & _ & _ & _ & _ & Hh').
    split_and!; try done.
    - rewrite endpoints_set_endpoints. apply lookup_insert_eq.
    - rewrite Hh', Hread. exact Hh.
    - rewrite endpoints_set_endpoints, lookup_total_insert_ne, Hread by done.
      exact Hh. }
  destruct Hpath as [[-> ->] | (-> & -> & ->)]; apply Hthen.
Qed.


(** X7. When the handler is rejected with the reason of a provider, one
    provider action was called, nothing was emitted, and the store is as it
    was: no endpoint was built and the failing endpoint keeps its headers. *)
Theorem reauth_refused_builds_nothing response endpoint w reason w' :
  responseErrorHandler userConfig oauth oauthAppOnly response endpoint w
  = (Rejected (ReauthError reason), w') →
  endpoints w' = endpoints w
  ∧ objects w' = objects w
  ∧ ∃ ev, events w' = events w ++ [ev]
          ∧ ev ∈ [CallRefresh; CallAuth; CallApplicationOnlyAuth].
Proof.
  handler_paths; intros [= ? ?]; subst;
    (split; [done|]; split; [done|]; eexists; split; [done|]; set_solver).
Qed.

Lemma kept_after_new (m : gmap loc Endpoint) l e' endpoint e :
  m !! endpoint = Some e → m !! l = None →
  (∀ ep, ep ≠ endpoint → is_Some (m !! ep) → <[l := e']> m !! ep = m !! ep)
  ∧ <[l := e']> m !! endpoint = Some e.
Proof.
  intros He Hl. split.
  - intros ep _ [e0 Hep]. apply lookup_insert_ne. congruence.
  - rewrite lookup_insert_ne; [done | congruence].
Qed.

Lemma kept_after_headers_and_new (m : gmap loc Endpoint) l e' endpoint e x :
  m !! endpoint = Some e → <[endpoint := x]> m !! l = None →
  (∀ ep, ep ≠ endpoint → is_Some (m !! ep) →
     <[l := e']> (<[endpoint := x]> m) !! ep = m !! ep)
  ∧ <[l := e']> (<[endpoint := x]> m) !! endpoint = Some x.
Proof.
  intros He Hl.
  assert (l ≠ endpoint) as Hne by (intros ->; by rewrite lookup_insert_eq in Hl).
  rewrite lookup_insert_ne in Hl by done. split.
  - intros ep Hep [e0 He0]. rewrite !lookup_insert_ne; [done | done | congruence].
  - rewrite lookup_insert_ne by done. apply lookup_insert_eq.
Qed.

(** X8. Whatever the response, the handler leaves the argument mappings and
    the slices alone and keeps every other endpoint of the store; the failing
    endpoint changes in its headers at most. *)
Theorem handler_frame response endpoint w e :
  endpoints w !! endpoint = Some e →
  let w' := (handler response endpoint w).2 in
  objects w' = objects w
  ∧ slices w' = slices w
  ∧ (∀ ep, ep ≠ endpoint → is_Some (endpoints w !! ep) →
       endpoints w' !! ep = endpoints w !! ep)
  ∧ ∃ h, endpoints w' !! endpoint = Some (setHeaders h e).
Proof.
  intros He w'. subst w'.
  assert (setHeaders (headers e) e = e) as Hid by (by destruct e).
  unfold set_appOnly_state, set_oauth_state, set_endpoints, log.
  handler_paths; unfold set_endpoints in *; cbn [snd endpoints objects slices] in *;
    (split; [done|]; split; [done|]).
  all: try (split; [done | exists (headers e); by rewrite Hid]).
  all: rewrite ?(lookup_total_correct _ _ _ He) in *.
  all: match goal with
       | Hn : <[?p := ?x]> _ !! ?l = None |- context [<[?l := ?e']> _] =>
           destruct (kept_after_headers_and_new _ l e' p _ x He Hn)
             as [Hkeep Hhere]
       | Hn : _ !! ?l = None |- context [<[?l := ?e']> _] =>
           destruct (kept_after_new _ l e' _ _ He Hn) as [Hkeep Hhere];
           rewrite <- Hid in Hhere
       end; (split; [exact Hkeep | eexists; exact Hhere]).
Qed.

(** X9. Handling one failure logs at most one thing, a provider call or a
    notification; and a provider's state changes only if one was called. *)
Theorem handler_one_event response endpoint w :
  let w' := (responseErrorHandler userConfig oauth oauthAppOnly
               response endpoint w).2 in
  ∃ evs, events w' = events w ++ evs
    ∧ (length evs ≤ 1)%nat
    ∧ (Forall (λ ev, ev ≠ CallRefresh ∧ ev ≠ CallAuth) evs →
         oauth_state w' = oauth_state w)
    ∧ (CallApplicationOnlyAuth ∉ evs → appOnly_state w' = appOnly_state w).
Proof.
  intros w'. subst w'.
  handler_paths; cbn [snd events oauth_state appOnly_state set_endpoints
                        set_oauth_state set_appOnly_state log].
  all: first
    [ exists []; rewrite app_nil_r; split_and!; [done | simpl; lia | done | done]
    | eexists [_]; split; [done|]; split; [simpl; lia|]; split;
      [ first [done | intros [? ?]%Forall_inv; done]
      | first [done | intros Hnot; exfalso; apply Hnot, list_elem_of_singleton; done] ] ].
Qed.

(** X10. The only notification the handler emits is [access_token_expired],
    and it emits it exactly when it rejects with the TokenExpiredUnrecoverable
    error. *)
Theorem emits_only_on_expiry response endpoint w :
  let r := handler response endpoint w in
  (∀ name, Emit name ∈ drop (length (events w)) (events r.2) →
     name = "access_token_expired")
  ∧ (Emit "access_token_expired" ∈ drop (length (events w)) (events r.2)
     ↔ r.1 = Rejected (ResponseError TokenExpiredUnrecoverable response endpoint)).
Proof.
  intros r. subst r.
  handler_paths; cbn [fst snd events set_endpoints set_oauth_state
                        set_appOnly_state log];
    rewrite ?drop_app_length, ?drop_all.
  all: rewrite ?elem_of_nil, ?list_elem_of_singleton.
  all: split; [intros name; rewrite ?elem_of_nil, ?list_elem_of_singleton;
               naive_solver|].
  all: split; [naive_solver | intros [=]; done].
Qed.

(** X11. Whenever the handler is fulfilled, the status was 401 or printed
    with a leading [5], and the value is an endpoint that was not in the
    store and that repeats the call of the failing one with the headers
    [buildHeaders] gives in the resulting world. *)
Theorem fulfilled_is_new_retry response endpoint w l w' :
  handler response endpoint w = (Fulfilled l, w') →
  (_status response = 401
   ∨ first_char (Number_toString (_status response)) = "5")
  ∧ endpoints w !! l = None
  ∧ ∃ e', endpoints w' !! l = Some e'
      ∧ same_call
          (headers_for (Some (contextOptions (endpoints w !!! endpoint))) w')
          (endpoints w !!! endpoint) e'.
Proof.
  unfold set_appOnly_state, set_oauth_state, set_endpoints, log.
  handler_paths; intros [= <- <-]; unfold set_endpoints in *;
    cbn [endpoints] in *.
  1-3: split; [left; by apply Z.eqb_eq|].
  4: split; [right; by apply String.eqb_eq|].
  4: { split; [done|]. eexists. split; [apply lookup_insert_eq | done]. }
  all: assert (x ≠ endpoint) as Hne
         by (intros ->; by rewrite lookup_insert_eq in Hnew).
  all: rewrite lookup_insert_ne in Hnew by done; split; [done|].
  all: eexists; split; [apply lookup_insert_eq|].
  all: rewrite lookup_total_insert_eq in Hsame; exact Hsame.
Qed.

(** X12. The handler throws only in one situation: a 401, not app-only and
    without [bypassAuth], with a user provider that can refresh, holds no
    refresh token and is not of type [script]. It then throws a TypeError and
    leaves the world as it was. *)
Theorem throws_only_without_promise response endpoint w err w' :
  handler response endpoint w = (Thrown err, w') →
  err = TypeError ∧ w' = w
  ∧ _status response = 401
  ∧ isApplicationOnly oauth w = false
  ∧ bypassAuth (contextOptions (endpoints w !!! endpoint)) = false
  ∧ canRefreshAccessToken oauth (oauth_state w) = true
  ∧ hasRefreshToken oauth (oauth_state w) = false
  ∧ isOAuthType userConfig "script" = false.
Proof.
  handler_paths; intros [= <- <-].
  apply orb_false_iff in Heqb2 as [? ?]. split_and!; try done.
  by apply Z.eqb_eq.
Qed.

End HandlerPaths.


(** ** More of the listing *)

Section ListingPaths.
Context {U A : Type}.
Variable userConfig : UserConfig.
Variable oauth : OAuth U.
Variable oauthAppOnly : OAuth A.
Variable coerce_add coerce_sub : Value → Value → Value.
Implicit Type w : World U A.
Implicit Type st : ListingState U A.

Local Abbreviation next := (slice_next userConfig oauth oauthAppOnly coerce_add).
Local Abbreviation previous :=
  (slice_previous userConfig oauth oauthAppOnly coerce_sub).
Local Abbreviation invoke :=
  (call userConfig oauth oauthAppOnly coerce_add coerce_sub).
Local Abbreviation running :=
  (run userConfig oauth oauthAppOnly coerce_add coerce_sub).

(** What [previous()] writes and issues, in terms of what it computes. *)
Lemma slice_previous_issues endpoint0 w0 env st0 sl st s c1 kids :
  getListing endpoint0 w0 = (env, st0) →
  slices (world st) !! sl = Some s →
  Forall not_stickied (slice.children s) →
  slice.children s = c1 :: kids →
  ∃ name l st',
    child_name c1 = inr name
    ∧ previous env sl st = (Request l, st')
    ∧ endpoints (world st) !! l = None
    ∧ prop (args_of l (world st')) "before" = name
    ∧ prop (args_of l (world st')) "after" = VNull
    ∧ prop (args_of l (world st')) "count"
      = js_sub coerce_sub (count st) (limit env)
    ∧ count st' = js_sub coerce_sub (count st) (limit env)
    ∧ limit env = js_or (prop (args_of endpoint0 w0) "limit") (VNum 25).
Proof.
  intros [= <- <-] Hsl Hkids Hfirst.
  assert (not_stickied c1) as (v & Hv & _).
  { rewrite Hfirst in Hkids. by apply Forall_inv in Hkids. }
  destruct (stickied_child_named _ _ Hv) as [name Hname].
  unfold slice_previous, first_child. rewrite (lookup_total_correct _ _ _ Hsl).
  rewrite Hfirst. simpl head. simpl default.
  change (inr c1 ≫= child_name) with (child_name c1). rewrite Hname.
  set (newArgs := args _).
  set (w3 := set_prop newArgs "count" _ _).
  destruct (getSlice_new_request userConfig oauth oauthAppOnly
              (slice.endpoint s) newArgs w3)
    as (l & e' & -> & Hnew & Hargs & _).
  exists name, l. eexists. split; [done|]. split; [done|].
  split; [done|]. cbn [world count].
  assert (args_of l (set_endpoints (<[l := e']> (endpoints w3)) w3)
          = <["count" := js_sub coerce_sub (count st) (js_or
               (prop (args_of endpoint0 w0) "limit") (VNum 25))]>
              (<["after" := VNull]>
                 (<["before" := name]> (objects (world st) !!! newArgs)))) as ->.
  { rewrite args_of_new, Hargs. subst w3. by rewrite !set_prop_same. }
  unfold prop. by simplify_map_eq.
Qed.

(** X13. [previous()] on a slice whose non-stickied children are [c1..cN]
    issues a request over arguments in which [before] is the value read at
    [c1.data.name], [after] is [null] and [count] is the running count [c]
    less [limit], which becomes the new running count. [limit] is
    [args.limit] of the endpoint given to [getListing] when that is truthy,
    and 25 otherwise; the difference is the integer [c - limit] for safe
    integers with a safe difference. *)
Theorem previous_request endpoint0 w0 env st0 sl st s c1 kids c n :
  getListing endpoint0 w0 = (env, st0) →
  slices (world st) !! sl = Some s →
  Forall not_stickied (slice.children s) →
  slice.children s = c1 :: kids →
  count st = VNum c →
  (let given := prop (args_of endpoint0 w0) "limit" in
   if truthy given then given else VNum 25) = VNum n →
  safe_integer c = true → safe_integer n = true →
  safe_integer (c - n) = true →
  ∃ data name l st',
    get_prop c1 "data" = Some data
    ∧ get_prop data "name" = Some name
    ∧ previous env sl st = (Request l, st')
    ∧ endpoints (world st) !! l = None
    ∧ prop (args_of l (world st')) "before" = name
    ∧ prop (args_of l (world st')) "after" = VNull
    ∧ prop (args_of l (world st')) "count" = VNum (c - n)
    ∧ count st' = VNum (c - n).
Proof.
  intros Hlisting Hsl Hkids Hfirst Hc Hn Hsc Hsn Hdiff.
  destruct (slice_previous_issues _ _ _ _ _ _ _ _ _ Hlisting Hsl Hkids Hfirst)
    as (name & l & st' & Hname & Hprevious & Hnew & Hbefore & Hafter & Hcount
        & Hrunning & Hlimit).
  destruct (child_name_reads _ _ Hname) as (data & Hdata & Hread).
  assert (js_sub coerce_sub (count st) (limit env) = VNum (c - n)) as Hdiffv.
  { rewrite Hlimit, Hc. unfold js_or. cbv zeta in Hn. rewrite Hn.
    by apply js_sub_numbers. }
  exists data, name, l, st'. rewrite <- Hdiffv. by split_and!.
Qed.

(** The running count after a closure ran, whether it issued a request or
    threw. *)
Lemma count_after env c sl st :
  count (invoke env c sl st).2
  = match c with
    | Next => js_add coerce_add (count st) (limit env)
    | Previous => js_sub coerce_sub (count st) (limit env)
    | Start => VNum 0
    | Requery => count st
    end.
Proof.
  destruct c; cbn [call]; [| | |done].
  - unfold slice_next. destruct (last_child _ ≫= child_name); [done|].
    by destruct (getSlice_new _ _ _ _ _ _).
  - unfold slice_previous. destruct (first_child _ ≫= child_name); [done|].
    by destruct (getSlice_new _ _ _ _ _ _).
  - unfold slice_start. by destruct (getSlice_new _ _ _ _ _ _).
Qed.

(** X14. With a [limit] and a running count that are safe integers, whose
    sum and difference are safe too, [next()] followed by [previous()], or
    [previous()] followed by [next()], on any slices of the listing and
    whether or not they throw, brings the running count back to what it
    was. *)
Theorem next_previous_count env sl1 sl2 st c n :
  let invoke := call userConfig oauth oauthAppOnly coerce_add coerce_sub in
  limit env = VNum n → count st = VNum c →
  safe_integer c = true → safe_integer n = true →
  safe_integer (c + n) = true → safe_integer (c - n) = true →
  count (invoke env Previous sl2 (invoke env Next sl1 st).2).2 = VNum c
  ∧ count (invoke env Next sl2 (invoke env Previous sl1 st).2).2 = VNum c.
Proof.
  intros invoke Hn Hc Hsc Hsn Hsum Hdiff. subst invoke.
  rewrite !count_after, Hn, Hc.
  rewrite (js_add_numbers _ _ _ Hsc Hsn Hsum).
  rewrite (js_sub_numbers _ _ _ Hsc Hsn Hdiff).
  split.
  - rewrite js_sub_numbers; [f_equal; lia|done..|].
    by replace (c + n - n) with c by lia.
  - rewrite js_add_numbers; [f_equal; lia|done..|].
    by replace (c - n + n) with c by lia.
Qed.

(** X15. With a [limit] that is an integer, the running count of a listing,
    which starts at 0, is a whole multiple [k * limit] of it after any
    sequence of actions on the listing that is short enough for
    [length * |limit|] to be a safe integer; [k] can be negative, and is at
    most the number of actions in absolute value. *)
Theorem count_multiple_of_limit endpoint0 w0 actions n :
  let env := (getListing endpoint0 w0).1 in
  limit env = VNum n →
  Z.of_nat (length actions) * Z.abs n ≤ MAX_SAFE_INTEGER →
  ∃ k : Z,
    Z.abs k ≤ Z.of_nat (length actions)
    ∧ count (running env actions (getListing endpoint0 w0).2) = VNum (k * n).
Proof.
  intros env Hn.
  assert (∀ (m : Z) st,
            0 ≤ m →
            (m + Z.of_nat (length actions)) * Z.abs n ≤ MAX_SAFE_INTEGER →
            (∃ k, Z.abs k ≤ m ∧ count st = VNum (k * n)) →
            ∃ k, Z.abs k ≤ m + Z.of_nat (length actions)
                 ∧ count (running env actions st) = VNum (k * n)) as Hrun.
  { induction actions as [|a actions IH]; intros m st Hm Hbound Hst.
    { destruct Hst as (k & Hk & Hcount). exists k. simpl. split; [lia|done]. }
    cbn [run foldl].
    assert (∃ k, Z.abs k ≤ m + 1 ∧ count (perform userConfig oauth
              oauthAppOnly coerce_add coerce_sub env a st) = VNum (k * n))
      as Hstep.
    { destruct Hst as (k & Hk & Hcount). simpl length in Hbound.
      assert (safe_integer n = true) as Hsn
        by (apply safe_integer_bounds; nia).
      assert (safe_integer (k * n) = true) as Hsk
        by (apply safe_integer_bounds; nia).
      destruct a as [c sl|ep result|response ep]; cbn [perform].
      - rewrite count_after, Hcount, Hn. destruct c.
        + exists (k + 1). split; [lia|].
          rewrite js_add_numbers; [f_equal; lia|done..|].
          apply safe_integer_bounds; nia.
        + exists (k - 1). split; [lia|].
          rewrite js_sub_numbers; [f_equal; lia|done..|].
          apply safe_integer_bounds; nia.
        + exists 0. split; [lia|]. f_equal; lia.
        + exists k. split; [lia|done].
      - unfold getSlice_then. destruct (slice_of _ _ _ _);
          exists k; (split; [lia|done]).
      - exists k. split; [lia|done]. }
    destruct (IH (m + 1) (perform userConfig oauth oauthAppOnly coerce_add
                            coerce_sub env a st)) as (k & Hk & Hcount);
      [lia|simpl length in Hbound; lia|done|].
    exists k. split; [simpl length; lia|done]. }
  intros Hbound. destruct (Hrun 0 (getListing endpoint0 w0).2) as (k & Hk & Hc);
    [lia|lia|by exists 0|].
  exists k. split; [lia|done].
Qed.



End ListingPaths.

(** ** Building a slice *)

Section SliceBuilding.
Context {U A : Type}.
Implicit Type st : ListingState U A.

(** X18. When the call returns an array and the endpoint has no
    [listingIndex], [getSlice] is rejected with the error that asks for one,
    and builds nothing. *)
Theorem listing_index_required endpoint items st :
  listingIndex (contextOptions (endpoints (world st) !!! endpoint)) = None →
  getSlice_then endpoint (VArr items) st
  = (Rejected (PlainError "Must specify a `listingIndex` for this listing."),
     st).
Proof. intros Hnone. unfold getSlice_then, slice_of. by rewrite Hnone. Qed.

(** X19. When the call returns an array and [listingIndex] names one of its
    elements, an object, the slice is the one that object alone would give,
    except that [get] holds the whole array; and if the object gives an
    error, so does the array. *)
Theorem listing_index_selects endpoint contextOptions count items i fields :
  listingIndex contextOptions = Some i →
  0 ≤ i →
  items !! Z.to_nat i = Some (VObj fields) →
  match slice_of endpoint contextOptions count (VObj fields) with
  | inl e => slice_of endpoint contextOptions count (VArr items) = inl e
  | inr s =>
      ∃ s', slice_of endpoint contextOptions count (VArr items) = inr s'
        ∧ slice.get s' = VArr items ∧ slice.get s = VObj fields
        ∧ slice.count s' = slice.count s
        ∧ slice.before s' = slice.before s ∧ slice.after s' = slice.after s
        ∧ slice.allChildren s' = slice.allChildren s
        ∧ slice.empty s' = slice.empty s
        ∧ slice.children s' = slice.children s
        ∧ slice.stickied s' = slice.stickied s
        ∧ slice.endpoint s' = slice.endpoint s
  end.
Proof.
  intros Hi Hpos Hitem. unfold slice_of, js_index. rewrite Hi.
  apply Z.ltb_ge in Hpos as ->. rewrite Hitem.
  unfold mbind, Error_bind. simpl default.
  repeat match goal with
         | |- context [match ?m with _ => _ end] =>
             destruct m eqn:?; try done
         end.
  match goal with
  | H : _ = inr ?t |- context [slice.count ?t] => injection H as <-
  end.
  eexists. split; [done|]. by repeat split.
Qed.

(** X20. When the call returns an array and [listingIndex] is outside it,
    [getSlice] is rejected with a TypeError and builds nothing. *)
Theorem listing_index_out_of_range endpoint items i st :
  listingIndex (contextOptions (endpoints (world st) !!! endpoint)) = Some i →
  i < 0 ∨ Z.of_nat (length items) ≤ i →
  getSlice_then endpoint (VArr items) st = (Rejected TypeError, st).
Proof.
  intros Hi Hout. unfold getSlice_then, slice_of. rewrite Hi.
  assert (js_index items i = VUndefined) as ->.
  { unfold js_index. destruct (i <? 0) eqn:Hneg; [done|].
    apply Z.ltb_ge in Hneg. rewrite lookup_ge_None_2; [done|lia]. }
  done.
Qed.

(** X21. A result that is not an array and has no [data] (a string, a number,
    [null], an object without that key) makes [getSlice] reject with a
    TypeError and build nothing. *)
Theorem result_without_data endpoint result st :
  (∀ items, result ≠ VArr items) →
  get_prop result "data" = None
  ∨ get_prop result "data" = Some VUndefined
  ∨ get_prop result "data" = Some VNull →
  getSlice_then endpoint result st = (Rejected TypeError, st).
Proof.
  intros Harr Hdata. unfold getSlice_then, slice_of, read.
  destruct result; try (by destruct (Harr items)); simpl in *;
    destruct Hdata as [Hd|[Hd|Hd]]; try done;
    injection Hd as Hd; by rewrite Hd.
Qed.

(** X22. [getSlice] never throws. When it is rejected the state is as it
    was; when it is fulfilled the store has one more slice, at a location
    that was free, holding the running count and the endpoint it was built
    for, and nothing else has changed. *)
Theorem getSlice_adds_one_slice endpoint result st :
  let r := getSlice_then endpoint result st in
  match r.1 with
  | Thrown _ => False
  | Rejected _ => r.2 = st
  | Fulfilled l =>
      slices (world st) !! l = None
      ∧ (∃ s, slices (world r.2) = <[l := s]> (slices (world st))
           ∧ slice.count s = count st ∧ slice.endpoint s = endpoint)
      ∧ count r.2 = count st
      ∧ endpoints (world r.2) = endpoints (world st)
      ∧ objects (world r.2) = objects (world st)
      ∧ events (world r.2) = events (world st)
  end.
Proof.
  intros r. subst r. unfold getSlice_then.
  destruct (slice_of _ _ _ _) as [e|s] eqn:Hs; [done|]. cbn.
  destruct (slice_of_built _ _ _ _ _ Hs) as (_ & _ & _ & Hc & He).
  split; [apply not_elem_of_dom, is_fresh|]. split; [|done]. by exists s.
Qed.

(** X23. In a slice that [getSlice] builds, [before] and [after] are each
    either [null] or a truthy value: never [undefined], the empty string,
    zero or [false]. *)
Theorem slice_cursors endpoint contextOptions count result s :
  slice_of endpoint contextOptions count result = inr s →
  (slice.before s = VNull ∨ truthy (slice.before s) = true)
  ∧ (slice.after s = VNull ∨ truthy (slice.after s) = true).
Proof.
  unfold slice_of, mbind, Error_bind. intros H.
  repeat match type of H with
         | match ?m with _ => _ end = _ => destruct m eqn:?; try done
         end.
  injection H as <-. cbn. unfold js_or.
  split; by match goal with |- context [truthy ?v] => destruct (truthy v) eqn:? end;
    eauto.
Qed.

(** X24. When [data.children] of the listing is missing or falsy, the slice
    is built and is empty: [allChildren], [children] and [stickied] have no
    element and [empty] is true. *)
Theorem missing_children_empty endpoint contextOptions count fields data :
  fields !! "data" = Some (VObj data) →
  truthy (prop data "children") = false →
  ∃ s, slice_of endpoint contextOptions count (VObj fields) = inr s
    ∧ slice.allChildren s = [] ∧ slice.children s = []
    ∧ slice.stickied s = [] ∧ slice.empty s = true.
Proof.
  intros Hdata Hfalsy.
  assert (read (VObj fields) "data" = inr (VObj data)) as Hread
    by (unfold read, get_prop, prop; by rewrite Hdata).
  assert (js_or (prop data "children") (VArr []) = VArr []) as Hnone
    by (unfold js_or; by rewrite Hfalsy).
  unfold slice_of, mbind, Error_bind. rewrite !Hread.
  change (read (VObj data) "before") with (@inr Error _ (prop data "before")).
  change (read (VObj data) "after") with (@inr Error _ (prop data "after")).
  change (read (VObj data) "children")
    with (@inr Error _ (prop data "children")).
  cbv iota beta. rewrite Hnone. cbn.
  eexists. split; [done|]. by repeat split.
Qed.

End SliceBuilding.


(** ** OAuth requests *)

Lemma contains_refl (s : string) : contains s s.
Proof.
  exists "", "". rewrite append_nil. induction s as [|c s IH]; [done|].
  by rewrite append_cons, <- IH.
Qed.

Lemma contains_prepend (pre hay needle : string) :
  contains hay needle → contains (pre +:+ hay) needle.
Proof.
  intros (p & q & ->). exists (pre +:+ p), q.
  induction pre as [|c pre IH]; [done|]. by rewrite !append_cons, IH.
Qed.

Lemma contains_append (hay post needle : string) :
  contains hay needle → contains (hay +:+ post) needle.
Proof.
  intros (p & q & ->). exists p, (q +:+ post).
  induction p as [|c p IH].
  - rewrite !append_nil. induction needle as [|c needle IH]; [done|].
    by rewrite !append_cons, IH.
  - by rewrite !append_cons, IH.
Qed.

(** X25. Every name of an array of scopes occurs in the scope string built
    from it. *)
Theorem normalizeScope_names (names : list string) (name : string) :
  name ∈ names →
  contains (oauth.normalizeScope (oauth.Scopes names)) name.
Proof.
  unfold oauth.normalizeScope. revert name.
  induction names as [|first rest IH]; intros name Hin.
  - by apply elem_of_nil in Hin.
  - apply elem_of_cons in Hin as [->|Hin].
    + destruct rest; simpl; [apply contains_refl|].
      apply contains_append, contains_refl.
    + destruct rest as [|second rest]; [by apply elem_of_nil in Hin|].
      change (String.concat "," (first :: second :: rest))
        with (first +:+ ("," +:+ String.concat "," (second :: rest))).
      by apply contains_prepend, contains_prepend, IH.
Qed.

(** Membership in a list that is written out. *)
Ltac member :=
  repeat first [apply list_elem_of_here | apply list_elem_of_further].

Section Requests.
Variable stringify : oauth.Params → string.
Variable base64 : string → string.
Variable https : oauth.Call → string → oauth.Transport.
Variable JSON_parse : string → option Value.
Variable stack : string → string.
Variable ToString : Value → string.

Local Abbreviation getAuthData :=
  (oauth.getAuthData stringify base64 https JSON_parse stack ToString).
Local Abbreviation revokeToken := (oauth.revokeToken stringify base64 https).

Lemma auth_params_valid type options :
  type ∈ oauth.auth_types ↔ is_Some (oauth.auth_params type options).
Proof.
  unfold oauth.auth_params, oauth.auth_types.
  destruct (String.eqb type "script") eqn:H1;
    [apply String.eqb_eq in H1 as ->; split; [eauto | intros _; member]|].
  destruct (String.eqb type "installed") eqn:H2;
    [apply String.eqb_eq in H2 as ->; split; [eauto | intros _; member]|].
  destruct (String.eqb type "web") eqn:H3;
    [apply String.eqb_eq in H3 as ->; split; [eauto | intros _; member]|].
  destruct (String.eqb type "refresh") eqn:H4;
    [apply String.eqb_eq in H4 as ->; split; [eauto | intros _; member]|].
  apply String.eqb_neq in H1, H2, H3, H4. simpl. split.
  - rewrite !elem_of_cons, elem_of_nil. intros [?|[?|[?|[?|[]]]]]; done.
  - by intros [? ?].
Qed.

(** X26. For a type other than [script], [installed], [web] and [refresh],
    [getAuthData] sends no request and is rejected with the error
    [invalid type specified]. *)
Theorem getAuthData_invalid_type type options :
  type ∉ oauth.auth_types →
  getAuthData type options
  = ([], Rejected (PlainError "invalid type specified")).
Proof.
  intros Htype. unfold oauth.getAuthData.
  destruct (oauth.auth_params type options) eqn:Hp; [|done].
  destruct Htype. apply (auth_params_valid _ options). eauto.
Qed.

(** X27. For each of the four types, [getAuthData] sends exactly one
    request: a POST to the access-token path of [ssl.reddit.com] with the
    Basic authorization of the consumer key and secret, whose form carries
    the normalized scope and the grant type of that type. *)
Theorem getAuthData_one_request type options :
  type ∈ oauth.auth_types →
  ∃ params,
    (getAuthData type options).1
    = [({| oauth.call_method := "POST";
           oauth.call_hostname := "ssl.reddit.com";
           oauth.call_path := "/api/v1/access_token";
           oauth.call_headers :=
             {["Authorization" := oauth.basic_auth base64 options]} |},
        stringify params)]
    ∧ ("scope", Some (oauth.normalizeScope (oauth.scope options))) ∈ params
    ∧ ("grant_type",
       Some (if String.eqb type "script" then "password"
             else (if String.eqb type "refresh" then "refresh_token"
                   else "authorization_code"))) ∈ params.
Proof.
  intros Htype. unfold oauth.getAuthData, oauth.auth_params.
  unfold oauth.auth_types in Htype.
  rewrite !elem_of_cons, elem_of_nil in Htype.
  destruct Htype as [->|[->|[->|[->|[]]]]]; cbn;
    eexists; (split; [done|]); split; member.
Qed.

(** X28. The user name and the password are put in the form only for the
    type [script]. *)
Theorem credentials_only_for_script type options params :
  oauth.auth_params type options = Some params →
  type ≠ "script" →
  ∀ v, (("username", v) ∉ params) ∧ (("password", v) ∉ params).
Proof.
  unfold oauth.auth_params. intros Hp Hscript v.
  apply String.eqb_neq in Hscript. rewrite Hscript in Hp.
  destruct (_ || _); [|destruct (String.eqb type "refresh"); [|done]];
    injection Hp as <-; cbn;
    rewrite !elem_of_cons, !elem_of_nil;
    split; intros Hin; repeat (destruct Hin as [[=]|Hin]); done.
Qed.

(** X29. [getAuthData] is fulfilled with [data] exactly when the type is one
    of the four, the transport answered, the body of the answer parses to
    [data], and [data.error] can be read and is falsy. *)
Theorem getAuthData_fulfilled type options data :
  (getAuthData type options).2 = Fulfilled data
  ↔ ∃ params response error,
      oauth.auth_params type options = Some params
      ∧ https (oauth.token_call base64 "/api/v1/access_token" options)
          (stringify params) = oauth.Responded response
      ∧ JSON_parse (oauth.text (_body response)) = Some data
      ∧ get_prop data "error" = Some error
      ∧ truthy error = false.
Proof.
  unfold oauth.getAuthData, oauth.auth_data_of. split.
  - destruct (oauth.auth_params type options) as [params|]; [|done]. cbn.
    destruct (https _ _) as [response|reason] eqn:Hhttps; [|done].
    destruct (JSON_parse _) as [parsed|] eqn:Hparse; [|done].
    destruct (get_prop parsed "error") as [error|] eqn:Herror; [|done].
    destruct (truthy error) eqn:Htruthy; [done|]. intros [= <-].
    by exists params, response, error.
  - intros (params & response & error & -> & Hhttps & Hparse & Herror & Hfalsy).
    cbn. by rewrite Hhttps, Hparse, Herror, Hfalsy.
Qed.

(** X30. [revokeToken] is fulfilled exactly when the transport answered with
    status 204, and then with [undefined]; any other status rejects it with
    the error [Unable to revoke the given token]. *)
Theorem revokeToken_needs_204 token isRefreshToken options :
  let r := revokeToken token isRefreshToken options in
  (∀ v, r.2 = Fulfilled v
        ↔ v = VUndefined
          ∧ ∃ call form response,
              r.1 = [(call, form)]
              ∧ https call form = oauth.Responded response
              ∧ _status response = 204)
  ∧ (∀ call form response,
       r.1 = [(call, form)] →
       https call form = oauth.Responded response →
       _status response ≠ 204 →
       r.2 = Rejected (PlainError "Unable to revoke the given token")).
Proof.
  intros r. subst r. unfold oauth.revokeToken. cbn [fst snd]. split.
  - intros v. split.
    + destruct (https _ _) as [response|reason] eqn:Hhttps; [|done].
      destruct (_status response =? 204) eqn:Hst; [|done]. intros [= <-].
      split; [done|]. eexists _, _, response. split; [done|].
      split; [done|]. by apply Z.eqb_eq.
    + intros (-> & call & form & response & [= <- <-] & -> & Hst).
      by rewrite Hst.
  - intros call form response [= <- <-] -> Hst.
    by apply Z.eqb_neq in Hst as ->.
Qed.

End Requests.


(** ** More worked examples *)

(** A 404 for a provider that could refresh. *)
Lemma not_found_rejects_witness :
  let w := fixture.world_of (fixture.user true true) in
  scope_granted (fixture.respond 404)
  ∧ _status (fixture.respond 404) = 404
  ∧ responseErrorHandler (fixture.config "web") (fixture.provider true)
      (fixture.provider true) (fixture.respond 404) 1%positive w
    = (Rejected (ResponseError NotFound (fixture.respond 404) 1%positive), w).
Proof.
  intros w.
  assert (scope_granted (fixture.respond 404)) as Hscope
    by (apply scope_granted_no_header; reflexivity).
  split; [exact Hscope|]. split; [reflexivity|].
  exact (not_found_rejects _ _ _ _ _ _ Hscope eq_refl).
Defined.

(** A 403. *)
Lemma client_error_unrecoverable_witness :
  let w := fixture.world_of (fixture.user true true) in
  let response := fixture.respond 403 in
  scope_granted response
  ∧ 100 ≤ _status response ≤ 499
  ∧ _status response ≠ 401 ∧ _status response ≠ 404
  ∧ responseErrorHandler (fixture.config "web") (fixture.provider true)
      (fixture.provider true) response 1%positive w
    = (Rejected (ResponseError Unrecoverable response 1%positive), w).
Proof.
  intros w response.
  assert (scope_granted response) as Hscope
    by (apply scope_granted_no_header; reflexivity).
  assert (100 ≤ _status response ≤ 499) as Hrange by (simpl; lia).
  assert (_status response ≠ 401) as H401 by discriminate.
  assert (_status response ≠ 404) as H404 by discriminate.
  split; [exact Hscope|]. split; [exact Hrange|]. split; [exact H401|].
  split; [exact H404|].
  exact (client_error_unrecoverable _ _ _ _ _ _ Hscope Hrange H401 H404).
Defined.

(** A 503. *)
Lemma server_error_range_retries_witness :
  let w := fixture.world_of (fixture.user true true) in
  scope_granted fixture.busy
  ∧ 500 ≤ _status fixture.busy ≤ 599
  ∧ ∃ l w',
      responseErrorHandler (fixture.config "web") (fixture.provider true)
        (fixture.provider true) fixture.busy 1%positive w = (Fulfilled l, w')
      ∧ endpoints w !! l = None
      ∧ is_Some (endpoints w' !! l)
      ∧ events w' = events w.
Proof.
  intros w.
  assert (scope_granted fixture.busy) as Hscope
    by (apply scope_granted_no_header; reflexivity).
  assert (500 ≤ _status fixture.busy ≤ 599) as Hrange by (simpl; lia).
  split; [exact Hscope|]. split; [exact Hrange|].
  exact (server_error_range_retries _ _ _ _ _ _ Hscope Hrange).
Defined.

(** A 401 for a client that never signed a user in. *)
Lemma app_only_reauth_witness :
  let w := fixture.world_of fixture.anonymous in
  let provider := fixture.provider true in
  let handler := responseErrorHandler (fixture.config "web") provider provider in
  scope_granted fixture.expired
  ∧ _status fixture.expired = 401
  ∧ isApplicationOnly provider w
    || bypassAuth (contextOptions (endpoints w !!! 1%positive)) = true
  ∧ events (handler fixture.expired 1%positive w).2
    = events w ++ [CallApplicationOnlyAuth]
  ∧ oauth_state (handler fixture.expired 1%positive w).2 = oauth_state w
  ∧ ∀ s', applicationOnlyAuth provider (appOnly_state w) = Granted s' →
    ∃ l e' w',
      handler fixture.expired 1%positive w = (Fulfilled l, w')
      ∧ appOnly_state w' = s'
      ∧ l ≠ 1%positive
      ∧ endpoints w' !! l = Some e'
      ∧ headers e' !! "Authorization"
        = Some (getAuthorizationHeader provider s')
      ∧ headers (endpoints w' !!! 1%positive) !! "Authorization"
        = Some (getAuthorizationHeader provider s').
Proof.
  intros w provider handler.
  assert (scope_granted fixture.expired) as Hscope
    by (apply scope_granted_no_header; reflexivity).
  split; [exact Hscope|]. split; [reflexivity|]. split; [reflexivity|].
  exact (app_only_reauth (fixture.config "web") provider provider
           fixture.expired 1%positive w Hscope eq_refl eq_refl).
Defined.

(** A 401 for a script client without a refresh token. *)
Lemma user_reauth_header_witness :
  let w := fixture.world_of (fixture.user true false) in
  let provider := fixture.provider true in
  let s' := fixture.renew (oauth_state w) in
  scope_granted fixture.expired
  ∧ _status fixture.expired = 401
  ∧ bypassAuth (contextOptions (endpoints w !!! 1%positive)) = false
  ∧ canRefreshAccessToken provider (oauth_state w) = true
  ∧ ((hasRefreshToken provider (oauth_state w) = true
      ∧ refresh provider (oauth_state w) = Granted s')
     ∨ (hasRefreshToken provider (oauth_state w) = false
        ∧ isOAuthType (fixture.config "script") "script" = true
        ∧ auth provider (oauth_state w) = Granted s'))
  ∧ hasAccessToken provider s' || canRefreshAccessToken provider s' = true
  ∧ ∃ l e' w',
      responseErrorHandler (fixture.config "script") provider provider
        fixture.expired 1%positive w = (Fulfilled l, w')
      ∧ oauth_state w' = s'
      ∧ l ≠ 1%positive
      ∧ endpoints w' !! l = Some e'
      ∧ headers e' !! "Authorization" = Some (getAuthorizationHeader provider s')
      ∧ headers (endpoints w' !!! 1%positive) !! "Authorization"
        = Some (getAuthorizationHeader provider s').
Proof.
  intros w provider s'.
  assert (scope_granted fixture.expired) as Hscope
    by (apply scope_granted_no_header; reflexivity).
  assert ((hasRefreshToken provider (oauth_state w) = true
           ∧ refresh provider (oauth_state w) = Granted s')
          ∨ (hasRefreshToken provider (oauth_state w) = false
             ∧ isOAuthType (fixture.config "script") "script" = true
             ∧ auth provider (oauth_state w) = Granted s')) as Hpath
    by (right; repeat split; reflexivity).
  split; [exact Hscope|]. do 3 (split; [reflexivity|]).
  split; [exact Hpath|]. split; [reflexivity|].
  exact (user_reauth_header (fixture.config "script") provider provider
           fixture.expired 1%positive w s' Hscope eq_refl eq_refl eq_refl
           Hpath eq_refl).
Defined.

(** A 401 when the token endpoint refuses the refresh. *)
Lemma reauth_refused_builds_nothing_witness :
  let w := fixture.world_of (fixture.user true true) in
  let provider := fixture.provider false in
  let w' := log CallRefresh w in
  responseErrorHandler (fixture.config "web") provider provider
    fixture.expired 1%positive w
  = (Rejected (ReauthError "invalid_grant"), w')
  ∧ endpoints w' = endpoints w
  ∧ objects w' = objects w
  ∧ ∃ ev, events w' = events w ++ [ev]
          ∧ ev ∈ [CallRefresh; CallAuth; CallApplicationOnlyAuth].
Proof.
  intros w provider w'.
  assert (responseErrorHandler (fixture.config "web") provider provider
            fixture.expired 1%positive w
          = (Rejected (ReauthError "invalid_grant"), w')) as Hrefused
    by reflexivity.
  split; [exact Hrefused|].
  exact (reauth_refused_builds_nothing _ _ _ _ _ _ _ _ Hrefused).
Defined.

(** A 401 that is recovered by a refresh. *)
Lemma handler_frame_witness :
  let w := fixture.world_of (fixture.user true true) in
  let provider := fixture.provider true in
  let w' := (responseErrorHandler (fixture.config "web") provider provider
               fixture.expired 1%positive w).2 in
  endpoints w !! 1%positive = Some fixture.new_posts
  ∧ objects w' = objects w
  ∧ slices w' = slices w
  ∧ (∀ ep, ep ≠ 1%positive → is_Some (endpoints w !! ep) →
       endpoints w' !! ep = endpoints w !! ep)
  ∧ ∃ h, endpoints w' !! 1%positive = Some (setHeaders h fixture.new_posts).
Proof.
  intros w provider w'.
  assert (endpoints w !! 1%positive = Some fixture.new_posts) as Hhere
    by reflexivity.
  split; [exact Hhere|].
  exact (handler_frame (fixture.config "web") provider provider
           fixture.expired 1%positive w _ Hhere).
Defined.

(** A 503, whose retry is endpoint 2. *)
Lemma fulfilled_is_new_retry_witness :
  let w := fixture.world_of (fixture.user true true) in
  let provider := fixture.provider true in
  let r := responseErrorHandler (fixture.config "web") provider provider
             fixture.busy 1%positive w in
  r = (Fulfilled 2%positive, r.2)
  ∧ (_status fixture.busy = 401
     ∨ first_char (Number_toString (_status fixture.busy)) = "5")
  ∧ endpoints w !! 2%positive = None
  ∧ ∃ e', endpoints r.2 !! 2%positive = Some e'
      ∧ same_call
          (buildHeaders (fixture.config "web") provider provider
             (Some (contextOptions (endpoints w !!! 1%positive))) r.2)
          (endpoints w !!! 1%positive) e'.
Proof.
  intros w provider r.
  assert (r = (Fulfilled 2%positive, r.2)) as Hr by (vm_compute; reflexivity).
  split; [exact Hr|].
  exact (fulfilled_is_new_retry _ _ _ _ _ _ _ _ Hr).
Defined.

(** A 401 for a web client that can refresh but holds no refresh token. *)
Lemma throws_only_without_promise_witness :
  let w := fixture.world_of (fixture.user true false) in
  let provider := fixture.provider true in
  responseErrorHandler (fixture.config "web") provider provider
    fixture.expired 1%positive w = (Thrown TypeError, w)
  ∧ TypeError = TypeError ∧ w = w
  ∧ _status fixture.expired = 401
  ∧ isApplicationOnly provider w = false
  ∧ bypassAuth (contextOptions (endpoints w !!! 1%positive)) = false
  ∧ canRefreshAccessToken provider (oauth_state w) = true
  ∧ hasRefreshToken provider (oauth_state w) = false
  ∧ isOAuthType (fixture.config "web") "script" = false.
Proof.
  intros w provider.
  assert (responseErrorHandler (fixture.config "web") provider provider
            fixture.expired 1%positive w = (Thrown TypeError, w)) as Hthrown
    by reflexivity.
  split; [exact Hthrown|].
  exact (throws_only_without_promise _ _ _ _ _ _ _ _ Hthrown).
Defined.

(** [previous()] on the first page, whose non-stickied children are [A, C]. *)
Lemma previous_request_witness :
  let w0 := fixture.world_of (fixture.user true true) in
  let env := fixture.listing.1 in
  let st := fixture.browsing in
  let s := slices (world st) !!! 1%positive in
  let c1 := fixture.post "t3_a" false in
  getListing 1%positive w0 = (env, fixture.listing.2)
  ∧ slices (world st) !! 1%positive = Some s
  ∧ Forall not_stickied (slice.children s)
  ∧ slice.children s = c1 :: [fixture.post "t3_c" false]
  ∧ count st = VNum 0
  ∧ (let given := prop (args_of 1%positive w0) "limit" in
     if truthy given then given else VNum 25) = VNum 2
  ∧ safe_integer 0 = true ∧ safe_integer 2 = true
  ∧ safe_integer (0 - 2) = true
  ∧ ∃ data name l st',
      get_prop c1 "data" = Some data
      ∧ get_prop data "name" = Some name
      ∧ slice_previous (fixture.config "web") (fixture.provider true)
          (fixture.provider true) fixture.coerce env 1%positive st
        = (Request l, st')
      ∧ endpoints (world st) !! l = None
      ∧ prop (args_of l (world st')) "before" = name
      ∧ prop (args_of l (world st')) "after" = VNull
      ∧ prop (args_of l (world st')) "count" = VNum (0 - 2)
      ∧ count st' = VNum (0 - 2).
Proof.
  intros w0 env st s c1.
  assert (getListing 1%positive w0 = (env, fixture.listing.2)) as Hlisting
    by reflexivity.
  assert (slices (world st) !! 1%positive = Some s) as Hslice
    by (vm_compute; reflexivity).
  assert (slice.children s = c1 :: [fixture.post "t3_c" false]) as Hfirst
    by (vm_compute; reflexivity).
  assert (Forall not_stickied (slice.children s)) as Hkids.
  { rewrite Hfirst. repeat constructor; apply post_not_stickied. }
  assert ((let given := prop (args_of 1%positive w0) "limit" in
           if truthy given then given else VNum 25) = VNum 2) as Hlimit
    by (vm_compute; reflexivity).
  split; [exact Hlisting|]. split; [exact Hslice|]. split; [exact Hkids|].
  split; [exact Hfirst|]. split; [reflexivity|]. split; [exact Hlimit|].
  do 3 (split; [reflexivity|]).
  exact (previous_request (fixture.config "web") (fixture.provider true)
           (fixture.provider true) fixture.coerce
           _ _ _ _ _ _ _ _ _ 0 2 Hlisting Hslice Hkids Hfirst eq_refl Hlimit
           eq_refl eq_refl eq_refl).
Defined.

(** With [limit=2] on the first page. *)
Lemma next_previous_count_witness :
  let env := fixture.listing.1 in
  let st := fixture.browsing in
  let invoke := call (fixture.config "web") (fixture.provider true)
                  (fixture.provider true) fixture.coerce fixture.coerce in
  limit env = VNum 2 ∧ count st = VNum 0
  ∧ safe_integer 0 = true ∧ safe_integer 2 = true
  ∧ safe_integer (0 + 2) = true ∧ safe_integer (0 - 2) = true
  ∧ count (invoke env Previous 1%positive
             (invoke env Next 1%positive st).2).2 = VNum 0
  ∧ count (invoke env Next 1%positive
             (invoke env Previous 1%positive st).2).2 = VNum 0.
Proof.
  intros env st invoke.
  assert (limit env = VNum 2) as Hlimit by reflexivity.
  assert (count st = VNum 0) as Hcount by reflexivity.
  split; [exact Hlimit|]. split; [exact Hcount|].
  do 4 (split; [reflexivity|]).
  exact (next_previous_count (fixture.config "web") (fixture.provider true)
           (fixture.provider true) fixture.coerce fixture.coerce
           env 1%positive 1%positive st 0 2 Hlimit Hcount
           eq_refl eq_refl eq_refl eq_refl).
Defined.

(** Two pages forward and three back, with [limit=2]. *)
Lemma count_multiple_of_limit_witness :
  let w0 := fixture.world_of (fixture.user true true) in
  let env := (getListing 1%positive w0).1 in
  let actions := [Answer 1%positive fixture.page; Invoke Next 1%positive;
                  Invoke Next 1%positive; Invoke Previous 1%positive;
                  Invoke Previous 1%positive; Invoke Previous 1%positive] in
  limit env = VNum 2
  ∧ Z.of_nat (length actions) * Z.abs 2 ≤ MAX_SAFE_INTEGER
  ∧ ∃ k : Z,
      Z.abs k ≤ Z.of_nat (length actions)
      ∧ count (run (fixture.config "web") (fixture.provider true)
                 (fixture.provider true) fixture.coerce fixture.coerce
                 env actions (getListing 1%positive w0).2) = VNum (k * 2).
Proof.
  intros w0 env actions.
  assert (limit env = VNum 2) as Hlimit by reflexivity.
  assert (Z.of_nat (length actions) * Z.abs 2 ≤ MAX_SAFE_INTEGER) as Hbound
    by (vm_compute; discriminate).
  split; [exact Hlimit|]. split; [exact Hbound|].
  exact (count_multiple_of_limit (fixture.config "web") (fixture.provider true)
           (fixture.provider true) fixture.coerce fixture.coerce
           1%positive w0 actions 2 Hlimit Hbound).
Defined.

(** [previous()] on the first page of a listing takes the count below zero. *)
Lemma previous_first_page :
  count (call (fixture.config "web") (fixture.provider true)
           (fixture.provider true) fixture.coerce fixture.coerce
           fixture.listing.1 Previous 1%positive fixture.browsing).2
  = VNum (-2).
Proof. vm_compute. reflexivity. Qed.



(** An array for an endpoint without [listingIndex]. *)
Lemma listing_index_required_witness :
  let st := fixture.listing.2 in
  listingIndex (contextOptions (endpoints (world st) !!! 1%positive)) = None
  ∧ getSlice_then 1%positive (VArr [fixture.page]) st
    = (Rejected (PlainError "Must specify a `listingIndex` for this listing."),
       st).
Proof.
  intros st. split; [reflexivity|].
  exact (listing_index_required 1%positive [fixture.page] st eq_refl).
Defined.

(** The second element of an array of two pages. *)
Lemma listing_index_selects_witness :
  let options := {| bypassAuth := false; decodeHtmlEntities := false;
                    listingIndex := Some 1 |} in
  let items := [VObj fixture.bare; VObj fixture.bare] in
  listingIndex options = Some 1
  ∧ 0 ≤ 1
  ∧ items !! Z.to_nat 1 = Some (VObj fixture.bare)
  ∧ match slice_of 1%positive options (VNum 0) (VObj fixture.bare) with
    | inl e => slice_of 1%positive options (VNum 0) (VArr items) = inl e
    | inr s =>
        ∃ s', slice_of 1%positive options (VNum 0) (VArr items) = inr s'
          ∧ slice.get s' = VArr items ∧ slice.get s = VObj fixture.bare
          ∧ slice.count s' = slice.count s
          ∧ slice.before s' = slice.before s ∧ slice.after s' = slice.after s
          ∧ slice.allChildren s' = slice.allChildren s
          ∧ slice.empty s' = slice.empty s
          ∧ slice.children s' = slice.children s
          ∧ slice.stickied s' = slice.stickied s
          ∧ slice.endpoint s' = slice.endpoint s
    end.
Proof.
  intros options items.
  assert (0 ≤ 1) as Hpos by lia.
  split; [reflexivity|]. split; [exact Hpos|]. split; [reflexivity|].
  exact (listing_index_selects 1%positive options (VNum 0) items 1
           fixture.bare eq_refl Hpos eq_refl).
Defined.

(** Element 5 of an array of one. *)
Lemma listing_index_out_of_range_witness :
  let st := with_world fixture.listing.2
              (fixture.indexed 5 (world fixture.listing.2)) in
  listingIndex (contextOptions (endpoints (world st) !!! 1%positive)) = Some 5
  ∧ (5 < 0 ∨ Z.of_nat (length [fixture.page]) ≤ 5)
  ∧ getSlice_then 1%positive (VArr [fixture.page]) st = (Rejected TypeError, st).
Proof.
  intros st.
  assert (5 < 0 ∨ Z.of_nat (length [fixture.page]) ≤ 5) as Hout
    by (right; simpl; lia).
  split; [reflexivity|]. split; [exact Hout|].
  exact (listing_index_out_of_range 1%positive [fixture.page] 5 st
           eq_refl Hout).
Defined.

(** The text of a body that did not parse. *)
Lemma result_without_data_witness :
  let st := fixture.listing.2 in
  let result := VStr "Service Unavailable" in
  (∀ items, result ≠ VArr items)
  ∧ (get_prop result "data" = None
     ∨ get_prop result "data" = Some VUndefined
     ∨ get_prop result "data" = Some VNull)
  ∧ getSlice_then 1%positive result st = (Rejected TypeError, st).
Proof.
  intros st result.
  assert (∀ items, result ≠ VArr items) as Harr by (intros items; discriminate).
  assert (get_prop result "data" = None
          ∨ get_prop result "data" = Some VUndefined
          ∨ get_prop result "data" = Some VNull) as Hdata
    by (right; left; reflexivity).
  split; [exact Harr|]. split; [exact Hdata|].
  exact (result_without_data 1%positive result st Harr Hdata).
Defined.

(** A page whose [after] is the empty string and that has no [before]. *)
Lemma slice_cursors_witness :
  let s := {| slice.get := VObj fixture.bare; slice.count := VNum 0;
              slice.before := VNull; slice.after := VNull;
              slice.allChildren := []; slice.empty := true;
              slice.children := []; slice.stickied := [];
              slice.endpoint := 1%positive |} in
  slice_of 1%positive fixture.options (VNum 0) (VObj fixture.bare) = inr s
  ∧ (slice.before s = VNull ∨ truthy (slice.before s) = true)
  ∧ (slice.after s = VNull ∨ truthy (slice.after s) = true).
Proof.
  intros s.
  assert (slice_of 1%positive fixture.options (VNum 0) (VObj fixture.bare)
          = inr s) as Hbuilt by (vm_compute; reflexivity).
  split; [exact Hbuilt|].
  exact (slice_cursors _ _ _ _ _ Hbuilt).
Defined.

Lemma missing_children_empty_witness :
  let data : gmap string Value := {["after" := VStr ""]} in
  fixture.bare !! "data" = Some (VObj data)
  ∧ truthy (prop data "children") = false
  ∧ ∃ s, slice_of 1%positive fixture.options (VNum 0) (VObj fixture.bare)
         = inr s
      ∧ slice.allChildren s = [] ∧ slice.children s = []
      ∧ slice.stickied s = [] ∧ slice.empty s = true.
Proof.
  intros data.
  assert (fixture.bare !! "data" = Some (VObj data)) as Hdata
    by (vm_compute; reflexivity).
  assert (truthy (prop data "children") = false) as Hfalsy
    by (vm_compute; reflexivity).
  split; [exact Hdata|]. split; [exact Hfalsy|].
  exact (missing_children_empty 1%positive fixture.options (VNum 0)
           fixture.bare data Hdata Hfalsy).
Defined.

(** The scopes [identity] and [read]. *)
Lemma normalizeScope_names_witness :
  "read" ∈ ["identity"; "read"]
  ∧ contains (oauth.normalizeScope (oauth.Scopes ["identity"; "read"])) "read".
Proof.
  assert ("read" ∈ ["identity"; "read"]) as Hin by member.
  split; [exact Hin|].
  exact (normalizeScope_names _ _ Hin).
Defined.

(** The type [implicit] is none of the four. *)
Lemma getAuthData_invalid_type_witness :
  ("implicit" ∉ oauth.auth_types)
  ∧ oauth.getAuthData fixture.stringify fixture.base64 (fixture.https 204)
      fixture.parse_token fixture.stack fixture.print "implicit" fixture.app
    = ([], Rejected (PlainError "invalid type specified")).
Proof.
  assert ("implicit" ∉ oauth.auth_types) as Hnot.
  { unfold oauth.auth_types. rewrite !elem_of_cons, elem_of_nil.
    intros [?|[?|[?|[?|[]]]]]; discriminate. }
  split; [exact Hnot|].
  exact (getAuthData_invalid_type _ _ _ _ _ _ _ _ Hnot).
Defined.

(** The type [refresh]. *)
Lemma getAuthData_one_request_witness :
  "refresh" ∈ oauth.auth_types
  ∧ ∃ params,
      (oauth.getAuthData fixture.stringify fixture.base64 (fixture.https 204)
         fixture.parse_token fixture.stack fixture.print "refresh"
         fixture.app).1
      = [({| oauth.call_method := "POST";
             oauth.call_hostname := "ssl.reddit.com";
             oauth.call_path := "/api/v1/access_token";
             oauth.call_headers :=
               {["Authorization" :=
                   oauth.basic_auth fixture.base64 fixture.app]} |},
          fixture.stringify params)]
      ∧ ("scope", Some (oauth.normalizeScope (oauth.scope fixture.app)))
        ∈ params
      ∧ ("grant_type",
         Some (if String.eqb "refresh" "script" then "password"
               else (if String.eqb "refresh" "refresh" then "refresh_token"
                     else "authorization_code"))) ∈ params.
Proof.
  assert ("refresh" ∈ oauth.auth_types) as Hin by (unfold oauth.auth_types; member).
  split; [exact Hin|].
  exact (getAuthData_one_request fixture.stringify fixture.base64
           (fixture.https 204) fixture.parse_token fixture.stack fixture.print
           "refresh" fixture.app Hin).
Defined.

(** What the script and the refresh flows send, and what comes back. *)
Lemma getAuthData_examples :
  let get := oauth.getAuthData fixture.stringify fixture.base64
               (fixture.https 204) fixture.parse_token fixture.stack
               fixture.print in
  (get "script" fixture.app).1.*2
  = ["scope=identity,read&grant_type=password&username=alice&password=hunter2"]
  ∧ (get "refresh" fixture.app).1.*2
    = ["scope=identity,read&grant_type=refresh_token&refresh_token=rt"]
  ∧ (get "refresh" fixture.app).2 = Fulfilled fixture.granted
  ∧ oauth.basic_auth fixture.base64 fixture.app = "Basic b64(key:secret)".
Proof. repeat split; vm_compute; reflexivity. Qed.

(** The type [web]. *)
Lemma credentials_only_for_script_witness :
  let params := [("scope", Some "identity,read");
                 ("grant_type", Some "authorization_code");
                 ("client_id", Some "key");
                 ("redirect_uri", Some "https://example.com/cb");
                 ("code", Some "code")] in
  oauth.auth_params "web" fixture.app = Some params
  ∧ "web" ≠ "script"
  ∧ ∀ v, (("username", v) ∉ params) ∧ (("password", v) ∉ params).
Proof.
  intros params.
  assert ("web" ≠ "script") as Hweb by discriminate.
  split; [reflexivity|]. split; [exact Hweb|].
  exact (credentials_only_for_script "web" fixture.app params eq_refl Hweb).
Defined.
